(** * ssd2rtool: the treasure-class engine of [tools/generate_boss_drops.py]

    A shallow embedding of the expected-drop computation: the no-drop
    adjustment ([nodrop_adjusted_weight]), the single-roll distribution of a
    treasure class ([outcome_probs]), the memoised leaf resolver
    ([leaf_dist]) and the two pick aggregators
    ([expected_counts_for_one_pick], [expected_counts_per_kill]).

    Conventions of the embedding.
    - A Python [dict] is an association list in insertion order (the order
      [.items()] iterates in); [dict_set] overwrites in place or appends.
    - A raised exception is a value of [exn]; [leaf_dist] mutates its memo, so
      it is a function from the memo to a result and the memo afterwards (the
      memo survives an exception, as the Python object would).
    - Python's recursion limit is the [depth] argument of [leaf_dist].
    - The float arithmetic is an interface ([PyFloat]) with two instances:
      IEEE binary64 ([B64], what CPython computes with) and exact rationals
      ([QF]).  Integers are converted with [float()]; integers beyond 2^53,
      for which Python's integer true division and [OverflowError] differ
      from a conversion followed by a float division, are outside the model.
      In binary64, [x ** n] is the correctly rounded power.
    - Cell texts and identifiers are byte strings, and every row has a text
      (possibly empty) in each of its columns.

    Statements that hold whatever the arithmetic are proved over the
    interface; statements about sums and orders of probabilities are proved
    in exact arithmetic; what the code returns on a concrete table is
    evaluated in binary64. *)

From Stdlib Require Import ZArith List String Ascii Bool Lia Lqa.
From Stdlib Require Import QArith Qround Qpower.
From Stdlib Require Import Floats DecimalString DecimalZ.
From Stdlib Require Import Sorting.Sorted Sorting.Permutation.
Import ListNotations.

(* Decimal float literals below denote the nearest binary64 value. *)
Set Warnings "-inexact-float".

Local Open Scope string_scope.
Local Open Scope Z_scope.

(** ** Exceptions and results *)

(** The exceptions the engine can raise, each with the datum Python attaches
    to it: the missing key of a [KeyError], the rejected literal of a
    [ValueError].  A [ZeroDivisionError] carries a fixed message only. *)
Inductive exn : Type :=
| KeyError (key : string)
| ValueError (literal : string)
| ZeroDivisionError
| OverflowError
| RecursionError.

Inductive result (A : Type) : Type :=
| Ok (a : A)
| Raise (e : exn).
Arguments Ok {A} a.
Arguments Raise {A} e.

Definition bind {A B : Type} (r : result A) (k : A -> result B) : result B :=
  match r with
  | Ok a => k a
  | Raise e => Raise e
  end.

Notation "x <- r ;; k" := (bind r (fun x => k))
  (at level 61, r at next level, right associativity).
Notation "' p <- r ;; k" := (bind r (fun p => k))
  (at level 61, p pattern, r at next level, right associativity).

(** The datum an exception reports, if any. *)
Definition exn_arg (e : exn) : option string :=
  match e with
  | KeyError k => Some k
  | ValueError l => Some l
  | ZeroDivisionError | OverflowError | RecursionError => None
  end.

(** ** Strings *)

(** [s.startswith(p)] *)
Definition startswith (s p : string) : bool := String.prefix p s.

(** Truthiness of a [str]: the empty string is falsy. *)
Definition truthy (s : string) : bool := negb (s =? "")%string.

(** [str(n)] for a length, [str(z)] for an int. *)
Definition str_of_nat (n : nat) : string := NilEmpty.string_of_uint (Nat.to_uint n).
Definition str_of_Z (z : Z) : string := NilEmpty.string_of_int (Z.to_int z).

(** *** [int(s)] on a string: surrounding white space, an optional sign,
    decimal digits, single underscores between digits. *)

Definition is_space (c : ascii) : bool :=
  let n := nat_of_ascii c in
  (Nat.eqb n 32 || (Nat.leb 9 n && Nat.leb n 13) || (Nat.leb 28 n && Nat.leb n 31))%bool.

Definition digit_of (c : ascii) : option Z :=
  let n := nat_of_ascii c in
  if (Nat.leb 48 n && Nat.leb n 57)%bool then Some (Z.of_nat (n - 48)) else None.

Fixpoint lstrip (s : string) : string :=
  match s with
  | String c s' => if is_space c then lstrip s' else s
  | EmptyString => EmptyString
  end.

(** Only white space is left. *)
Fixpoint only_space (s : string) : bool :=
  match s with
  | String c s' => (is_space c && only_space s')%bool
  | EmptyString => true
  end.

(** [digits acc after_digit s]: reads the digit group; [after_digit] tells
    whether the previous character was a digit (an underscore is legal only
    between two digits). *)
Fixpoint digits (acc : Z) (after_digit : bool) (s : string) : option Z :=
  match s with
  | EmptyString => if after_digit then Some acc else None
  | String c s' =>
      match digit_of c with
      | Some d => digits (10 * acc + d) true s'
      | None =>
          if (Ascii.eqb c "_" && after_digit)%bool then
            match s' with
            | String c' _ =>
                match digit_of c' with
                | Some _ => digits acc false s'
                | None => None
                end
            | EmptyString => None
            end
          else if (after_digit && only_space s)%bool then Some acc
          else None
      end
  end.

Definition parse_int (s : string) : option Z :=
  match lstrip s with
  | String "-" s' => option_map Z.opp (digits 0 false s')
  | String "+" s' => digits 0 false s'
  | s' => digits 0 false s'
  end.

Definition py_int (s : string) : result Z :=
  match parse_int s with
  | Some z => Ok z
  | None => Raise (ValueError s)
  end.

(** ** Dictionaries *)

Definition dict (V : Type) : Type := list (string * V).

Section Dict.
Context {V : Type}.

(** [d.get(k)] *)
Fixpoint dict_get (d : dict V) (k : string) : option V :=
  match d with
  | [] => None
  | (k', v) :: d' => if (k' =? k)%string then Some v else dict_get d' k
  end.

(** [k in d] *)
Definition dict_mem (d : dict V) (k : string) : bool :=
  match dict_get d k with Some _ => true | None => false end.

(** [d[k]] *)
Definition getitem (d : dict V) (k : string) : result V :=
  match dict_get d k with
  | Some v => Ok v
  | None => Raise (KeyError k)
  end.

(** [d[k] = v]: an existing key keeps its position. *)
Fixpoint dict_set (d : dict V) (k : string) (v : V) : dict V :=
  match d with
  | [] => [(k, v)]
  | (k', v') :: d' =>
      if (k' =? k)%string then (k', v) :: d' else (k', v') :: dict_set d' k v
  end.

Definition keys (d : dict V) : list string := map fst d.
Definition values (d : dict V) : list V := map snd d.
End Dict.

(** [{k: f(v) for k, v in d.items()}] *)
Definition dict_comp {V W : Type} (f : V -> W) (d : dict V) : dict W :=
  fold_left (fun acc kv => dict_set acc (fst kv) (f (snd kv))) d [].

(** ** Arithmetic

    The operations the engine applies to [float] values.  [fquot] is the
    quotient by a divisor already known to be non-zero; Python's [/], which
    raises on a zero divisor, is [py_div] below. *)

(** The two ways a float operation fails: [int()] and [round()] reject a
    NaN with a [ValueError] and an infinity with an [OverflowError]; a power
    that overflows raises [OverflowError]. *)
Inductive float_error : Type := NotANumber | OutOfRange.

Definition raise_float {A : Type} (r : A + float_error) : result A :=
  match r with
  | inl a => Ok a
  | inr NotANumber => Raise (ValueError "nan")
  | inr OutOfRange => Raise OverflowError
  end.

Class PyFloat (F : Type) : Type := {
  of_int : Z -> F;                (* float(n) *)
  f_half : F;                     (* the literal 0.5 *)
  fadd : F -> F -> F;
  fsub : F -> F -> F;
  fmul : F -> F -> F;
  fquot : F -> F -> F;
  fpow : F -> Z -> F + float_error;   (* x ** n, n a non-negative int *)
  fis_zero : F -> bool;           (* x == 0 *)
  ftrunc : F -> Z + float_error;  (* int(x) *)
  fround : F -> Z + float_error   (* round(x) *)
}.

(** *** IEEE binary64 *)

Module B64.
Local Open Scope float_scope.

(** The integer nearest to [m * 2^e] towards zero, for [m > 0]. *)
Definition trunc_pos (m : positive) (e : Z) : Z :=
  if (0 <=? e)%Z then (Zpos m * 2 ^ e)%Z else (Zpos m / 2 ^ (- e))%Z.

(** The integer nearest to [m * 2^e], ties to even, for [m > 0]. *)
Definition round_pos (m : positive) (e : Z) : Z :=
  if (0 <=? e)%Z then (Zpos m * 2 ^ e)%Z
  else
    let d := (2 ^ (- e))%Z in
    let q := (Zpos m / d)%Z in
    let r := (Zpos m mod d)%Z in
    match (2 * r ?= d)%Z with
    | Lt => q
    | Gt => (q + 1)%Z
    | Eq => if Z.even q then q else (q + 1)%Z
    end.

Definition to_int (f : positive -> Z -> Z) (x : float) : Z + float_error :=
  match Prim2SF x with
  | S754_zero _ => inl 0%Z
  | S754_infinity _ => inr OutOfRange
  | S754_nan => inr NotANumber
  | S754_finite s m e => inl (cond_Zopp s (f m e))
  end.

(** [float(n)]: the nearest binary64 value. *)
Definition of_Z (z : Z) : float := SF2Prim (binary_normalize prec emax z 0 false).

Fixpoint mul_iter (x : float) (n : nat) : float :=
  match n with
  | O => 1
  | S n' => x * mul_iter x n'
  end.

(** [x ** n]: the exact power of a finite [x], rounded once; an overflow
    raises. *)
Definition pow (x : float) (n : Z) : float + float_error :=
  match Prim2SF x with
  | S754_finite s m e =>
      let y := SF2Prim (binary_normalize prec emax (cond_Zopp s (Zpos m) ^ n) (n * e) false) in
      match Prim2SF y with
      | S754_infinity _ => inr OutOfRange
      | _ => inl y
      end
  | _ => inl (mul_iter x (Z.to_nat n))
  end.

#[global] Instance b64 : PyFloat float := {|
  of_int := of_Z;
  f_half := 0.5;
  fadd := PrimFloat.add;
  fsub := PrimFloat.sub;
  fmul := PrimFloat.mul;
  fquot := PrimFloat.div;
  fpow := pow;
  fis_zero := fun x => x =? 0;
  ftrunc := to_int trunc_pos;
  fround := to_int round_pos
|}.
End B64.

(** *** Exact rationals *)

Module QF.
Local Open Scope Q_scope.

(** Round half to even. *)
Definition round_half_even (q : Q) : Z :=
  let f := Qfloor q in
  match Qcompare (q - inject_Z f) (1 # 2) with
  | Lt => f
  | Gt => (f + 1)%Z
  | Eq => if Z.even f then f else (f + 1)%Z
  end.

Definition trunc (q : Q) : Z := Z.quot (Qnum q) (Zpos (Qden q)).

#[global] Instance qf : PyFloat Q := {|
  of_int := inject_Z;
  f_half := 1 # 2;
  fadd := Qplus;
  fsub := Qminus;
  fmul := Qmult;
  fquot := Qdiv;
  fpow := fun x n => inl (Qpower x n);
  fis_zero := fun x => (Qnum x =? 0)%Z;
  ftrunc := fun x => inl (trunc x);
  fround := fun x => inl (round_half_even x)
|}.
End QF.

(** ** The engine *)

(** A row of [TreasureClassEx.txt], as [csv.DictReader] yields it: column
    name to cell text, in column order.  The table maps a treasure-class
    name to its row. *)
Definition Row : Type := dict string.
Definition Table : Type := dict Row.

(** [for k, v in row.items(): if k.startswith("Item") and v: ...]
    (lines 62-65, and again lines 139-142): the non-empty [Item] cells in
    column order, each paired with [int(row[f"Prob{len(items)}"])].  The two
    parallel lists of the source are one list of pairs. *)
Fixpoint listed_loop (row : Row) (cells : list (string * string))
    (acc : list (string * Z)) : result (list (string * Z)) :=
  match cells with
  | [] => Ok acc
  | (k, v) :: rest =>
      if (startswith k "Item" && truthy v)%bool then
        cell <- getitem row ("Prob" ++ str_of_nat (S (List.length acc)))%string ;;
        n <- py_int cell ;;
        listed_loop row rest (acc ++ [(v, n)])%list
      else listed_loop row rest acc
  end.

Definition listed_outcomes (row : Row) : result (list (string * Z)) :=
  listed_loop row row [].

(** [sum(probs)] *)
Definition sum_weights (entries : list (string * Z)) : Z :=
  fold_left Z.add (map snd entries) 0.

(** [int(row.get("Picks") or 1)] *)
Definition picks_of (row : Row) : result Z :=
  match dict_get row "Picks" with
  | Some v => if truthy v then py_int v else Ok 1
  | None => Ok 1
  end.

(** [f"{tc_or_item}::p{players}"] *)
Definition memo_key (tc_or_item : string) (players : Z) : string :=
  (tc_or_item ++ "::p" ++ str_of_Z players)%string.

(** A colon occurs in the string (the decimal text of a player count has
    none, which makes [memo_key] injective). *)
Fixpoint has_colon (s : string) : bool :=
  match s with
  | EmptyString => false
  | String c s' => (Ascii.eqb c ":" || has_colon s')%bool
  end.

Section Engine.
Context {F : Type} {PF : PyFloat F}.

(** [x / y] on floats. *)
Definition py_div (x y : F) : result F :=
  if fis_zero y then Raise ZeroDivisionError else Ok (fquot x y).

(** [a / b] on ints. *)
Definition py_truediv (a b : Z) : result F :=
  if b =? 0 then Raise ZeroDivisionError else Ok (fquot (of_int a) (of_int b)).

(** Lines 51-52: the clamped player count and the exponent. *)
Definition clamp_players (players : Z) : Z := Z.max 1 (Z.min 8 players).

Definition nd_exp (players : Z) : result Z :=
  raise_float (ftrunc (fadd (fquot (of_int (clamp_players players)) (of_int 2)) f_half)).

(** Line 53. *)
Definition nodrop_ratio (nodrop_orig sumprobs players : Z) : result F :=
  e <- nd_exp players ;;
  base <- py_truediv nodrop_orig (nodrop_orig + sumprobs) ;;
  raise_float (fpow base e).

(** Lines 54-55, after the ratio. *)
Definition nodrop_final (ratio : F) (sumprobs : Z) : result Z :=
  q <- py_div ratio (fsub (of_int 1) ratio) ;;
  raise_float (fround (fmul q (of_int sumprobs))).

Definition nodrop_adjusted_weight (nodrop_orig sumprobs players : Z) : result Z :=
  ratio <- nodrop_ratio nodrop_orig sumprobs players ;;
  nodrop_final ratio sumprobs.

(** Line 73: [{items[i]: probs[i] / total for i in range(len(items))}]. *)
Fixpoint normalise (entries : list (string * Z)) (total : F) (acc : dict F)
    : result (dict F) :=
  match entries with
  | [] => Ok acc
  | (item, w) :: rest =>
      p <- py_div (of_int w) total ;;
      normalise rest total (dict_set acc item p)
  end.

(** Lines 66-71: the synthetic no-drop entry. *)
Definition with_nodrop (row : Row) (listed : list (string * Z)) (players : Z)
    : result (list (string * Z)) :=
  match dict_get row "NoDrop" with
  | Some v =>
      if truthy v then
        nodrop_orig <- py_int v ;;
        nd <- nodrop_adjusted_weight nodrop_orig (sum_weights listed) players ;;
        Ok (listed ++ [("", nd)])%list
      else Ok listed
  | None => Ok listed
  end.

Definition outcome_probs (tc : string) (tcdict : Table) (players : Z)
    : result (dict F) :=
  row <- getitem tcdict tc ;;
  listed <- listed_outcomes row ;;
  entries <- with_nodrop row listed players ;;
  normalise entries (of_int (sum_weights entries)) [].

(** [d[k] += x] on a [defaultdict(float)]. *)
Definition dict_add (d : dict F) (k : string) (x : F) : dict F :=
  dict_set d k (fadd (match dict_get d k with Some v => v | None => of_int 0 end) x).

(** Lines 92-93: [for k, v in sub.items(): dist[k] += p * v]. *)
Fixpoint add_scaled (p : F) (sub : dict F) (dist : dict F) : dict F :=
  match sub with
  | [] => dist
  | (k, v) :: rest => add_scaled p rest (dict_add dist k (fmul p v))
  end.

Definition Memo : Type := dict (dict F).

(** Lines 87-95, the loop over the outcomes; [rec] is the recursive call. *)
Fixpoint leaf_loop (rec : string -> Memo -> result (dict F) * Memo)
    (tcdict : Table) (outs : dict F) (dist : dict F) (memo : Memo)
    : result (dict F) * Memo :=
  match outs with
  | [] => (Ok dist, memo)
  | (outcome, p) :: rest =>
      if (outcome =? "")%string then leaf_loop rec tcdict rest dist memo
      else if dict_mem tcdict outcome then
        match rec outcome memo with
        | (Ok sub, memo') => leaf_loop rec tcdict rest (add_scaled p sub dist) memo'
        | (Raise e, memo') => (Raise e, memo')
        end
      else leaf_loop rec tcdict rest (dict_add dist outcome p) memo
  end.

Fixpoint leaf_dist (depth : nat) (tc_or_item : string) (tcdict : Table)
    (players : Z) (memo : Memo) : result (dict F) * Memo :=
  match depth with
  | O => (Raise RecursionError, memo)
  | S depth' =>
      if (tc_or_item =? "")%string then (Ok [], memo)
      else if negb (dict_mem tcdict tc_or_item) then
        (Ok [(tc_or_item, of_int 1)], memo)
      else
        let key := memo_key tc_or_item players in
        match dict_get memo key with
        | Some d => (Ok d, memo)
        | None =>
            match outcome_probs tc_or_item tcdict players with
            | Raise e => (Raise e, memo)
            | Ok outs =>
                match leaf_loop (fun o m => leaf_dist depth' o tcdict players m)
                        tcdict outs [] memo with
                | (Ok dist, memo') => (Ok dist, dict_set memo' key dist)
                | (Raise e, memo') => (Raise e, memo')
                end
            end
        end
  end.

(** Lines 109-110: [for leaf, p_leaf in ld.items():
    out[leaf] += p1 * inner_picks * p_leaf]. *)
Fixpoint add_counts (p1 : F) (inner_picks : Z) (ld : dict F) (out : dict F)
    : dict F :=
  match ld with
  | [] => out
  | (leaf, p_leaf) :: rest =>
      add_counts p1 inner_picks rest
        (dict_add out leaf (fmul (fmul p1 (of_int inner_picks)) p_leaf))
  end.

(** Lines 103-112. *)
Fixpoint one_pick_loop (depth : nat) (tcdict : Table) (players : Z)
    (outs : dict F) (out : dict F) (memo : Memo) : result (dict F) * Memo :=
  match outs with
  | [] => (Ok out, memo)
  | (tc1, p1) :: rest =>
      if (tc1 =? "")%string then one_pick_loop depth tcdict players rest out memo
      else
        match dict_get tcdict tc1 with
        | Some row1 =>
            match picks_of row1 with
            | Raise e => (Raise e, memo)
            | Ok inner_picks =>
                match leaf_dist depth tc1 tcdict players memo with
                | (Ok ld, memo') =>
                    one_pick_loop depth tcdict players rest
                      (add_counts p1 inner_picks ld out) memo'
                | (Raise e, memo') => (Raise e, memo')
                end
            end
        | None =>
            one_pick_loop depth tcdict players rest (dict_add out tc1 p1) memo
        end
  end.

Definition expected_counts_for_one_pick (depth : nat) (root_tc : string)
    (tcdict : Table) (players : Z) (memo : Memo) : result (dict F) * Memo :=
  match outcome_probs root_tc tcdict players with
  | Raise e => (Raise e, memo)
  | Ok outs => one_pick_loop depth tcdict players outs [] memo
  end.

(** Lines 118 and 130-133: the declared Picks and the pick count used. *)
Definition declared_picks (root_tc : string) (tcdict : Table) : result Z :=
  row <- getitem tcdict root_tc ;;
  picks_of row.

(** [str(row.get("Item1") or "")] *)
Definition item1_of (row : Row) : string :=
  match dict_get row "Item1" with
  | Some v => v
  | None => ""
  end.

Definition effective_picks (root_tc : string) (tcdict : Table) : result Z :=
  picks <- declared_picks root_tc tcdict ;;
  if 0 <? picks then
    row <- getitem tcdict root_tc ;;
    if startswith (item1_of row) "gld" then Ok (Z.max 0 (picks - 1))
    else Ok picks
  else Ok picks.

(** Lines 143-146: [rollseq]. *)
Fixpoint rollseq_of (pairs : list (string * Z)) : list string :=
  match pairs with
  | [] => []
  | (tc, n) :: rest => (repeat tc (Z.to_nat n) ++ rollseq_of rest)%list
  end.

(** Lines 152-153: [for leaf, p_leaf in ld.items():
    out[leaf] += inner_picks * p_leaf]. *)
Fixpoint add_rolls (inner_picks : Z) (ld : dict F) (out : dict F) : dict F :=
  match ld with
  | [] => out
  | (leaf, p_leaf) :: rest =>
      add_rolls inner_picks rest (dict_add out leaf (fmul (of_int inner_picks) p_leaf))
  end.

(** Lines 149-153. *)
Fixpoint rolls_loop (depth : nat) (tcdict : Table) (players : Z)
    (rollseq : list string) (out : dict F) (memo : Memo) : result (dict F) * Memo :=
  match rollseq with
  | [] => (Ok out, memo)
  | tc_roll :: rest =>
      match (match dict_get tcdict tc_roll with
             | Some row => picks_of row
             | None => Ok 1
             end) with
      | Raise e => (Raise e, memo)
      | Ok inner_picks =>
          match leaf_dist depth tc_roll tcdict players memo with
          | (Ok ld, memo') =>
              rolls_loop depth tcdict players rest (add_rolls inner_picks ld out) memo'
          | (Raise e, memo') => (Raise e, memo')
          end
      end
  end.

(** Lines 136-154. *)
Definition negative_picks (depth : nat) (root_tc : string) (tcdict : Table)
    (players picks : Z) : result (dict F) :=
  row <- getitem tcdict root_tc ;;
  pairs <- listed_outcomes row ;;
  let rollseq := firstn (Z.to_nat (Z.abs picks)) (rollseq_of pairs) in
  fst (rolls_loop depth tcdict players rollseq [] []).

Definition expected_counts_per_kill (depth : nat) (root_tc : string)
    (tcdict : Table) (players : Z) : result (dict F) :=
  picks <- effective_picks root_tc tcdict ;;
  if picks <? 0 then negative_picks depth root_tc tcdict players picks
  else
    one <- fst (expected_counts_for_one_pick depth root_tc tcdict players []) ;;
    Ok (dict_comp (fun v => fmul v (of_int picks)) one).
End Engine.


(** ** The unmemoised recursion and the shape of the table *)

Section Reference.
Context {F : Type} {PF : PyFloat F}.

(** [leaf_dist] with the memo taken out: the same loop, the recursive call
    a plain function. *)
Fixpoint leaf_loop_pure (rec : string -> result (dict F)) (tcdict : Table)
    (outs : dict F) (dist : dict F) : result (dict F) :=
  match outs with
  | [] => Ok dist
  | (outcome, p) :: rest =>
      if (outcome =? "")%string then leaf_loop_pure rec tcdict rest dist
      else if dict_mem tcdict outcome then
        sub <- rec outcome ;;
        leaf_loop_pure rec tcdict rest (add_scaled p sub dist)
      else leaf_loop_pure rec tcdict rest (dict_add dist outcome p)
  end.

Fixpoint leaf_dist_pure (depth : nat) (tc_or_item : string) (tcdict : Table)
    (players : Z) : result (dict F) :=
  match depth with
  | O => Raise RecursionError
  | S depth' =>
      if (tc_or_item =? "")%string then Ok []
      else if negb (dict_mem tcdict tc_or_item) then Ok [(tc_or_item, of_int 1)]
      else
        outs <- outcome_probs tc_or_item tcdict players ;;
        leaf_loop_pure (fun o => leaf_dist_pure depth' o tcdict players) tcdict outs []
  end.

(** Every entry of the memo holds what the unmemoised recursion returns for
    its node and player count. *)
Definition memo_valid (tcdict : Table) (memo : Memo) : Prop :=
  forall tc players d,
    dict_get memo (memo_key tc players) = Some d ->
    exists depth, leaf_dist_pure depth tc tcdict players = Ok d.

(** The memos that earlier calls of [leaf_dist] on the table leave behind,
    whatever their node, player count and outcome. *)
Inductive populated (tcdict : Table) : Memo -> Prop :=
| populated_empty : populated tcdict []
| populated_call depth tc players memo :
    populated tcdict memo ->
    populated tcdict (snd (leaf_dist depth tc tcdict players memo)).
(** What a memoised call owes: it leaves a valid memo, a distribution it
    returns is the unmemoised one at some depth, and it agrees with the
    unmemoised call at its own depth unless that one runs out of depth. *)
Definition call_sound (tcdict : Table) (players : Z) (depth : nat) (tc : string)
    (res : result (dict F) * Memo) : Prop :=
  memo_valid tcdict (snd res) /\
  (forall d, fst res = Ok d -> exists D, leaf_dist_pure D tc tcdict players = Ok d) /\
  (leaf_dist_pure depth tc tcdict players <> Raise RecursionError ->
   fst res = leaf_dist_pure depth tc tcdict players).
End Reference.

(** ** The no-drop adjustment as the specification words it (section 4.1) *)

Section ClosedForm.
Context {F : Type} {PF : PyFloat F}.

(** [round((ratio / (1 - ratio)) * s)] with
    [ratio = (raw / (raw + s)) ** e], for an exponent [e]. *)
Definition adjusted_weight_formula (e raw s : Z) : result Z :=
  base <- py_truediv raw (raw + s) ;;
  ratio <- raise_float (fpow base e) ;;
  q <- py_div ratio (fsub (of_int 1) ratio) ;;
  raise_float (fround (fmul q (of_int s))).

(** The exponent of the specification: [p/2 + 0.5] rounded to the nearest
    integer, [p] the clamped player count. *)
Definition rounded_exponent (players : Z) : result Z :=
  raise_float (fround (fadd (fquot (of_int (clamp_players players)) (of_int 2)) f_half)).

Definition claimed_adjusted_weight (raw s players : Z) : result Z :=
  e <- rounded_exponent players ;;
  adjusted_weight_formula e raw s.
End ClosedForm.

(** ** Negative Picks as the specification words it (section 4.3)

    The listed outcomes are a sequence: each outcome repeated as many times
    as its weight says, in listed order; [k] entries of it are consumed, or
    all of it when it is shorter; every consumed entry adds its own Picks
    (1 when it is no row or declares none) times its leaf distribution. *)

Section Deterministic.
Context {F : Type} {PF : PyFloat F}.

Definition repeat_sequence (listed : list (string * Z)) : list string :=
  flat_map (fun ow => repeat (fst ow) (Z.to_nat (snd ow))) listed.


Definition own_picks (tcdict : Table) (entry : string) : result Z :=
  match dict_get tcdict entry with
  | Some row => picks_of row
  | None => Ok 1
  end.

(** [inner_picks] times a leaf distribution. *)
Definition contribution (inner_picks : Z) (ld : dict F) : dict F :=
  map (fun kv => (fst kv, fmul (of_int inner_picks) (snd kv))) ld.

(** Key-wise addition of a contribution to the counts so far. *)
Definition accumulate (out contrib : dict F) : dict F :=
  fold_left (fun acc kv => dict_add acc (fst kv) (snd kv)) contrib out.

Fixpoint deterministic_counts (depth : nat) (tcdict : Table) (players : Z)
    (entries : list string) (out : dict F) : result (dict F) :=
  match entries with
  | [] => Ok out
  | entry :: rest =>
      inner_picks <- own_picks tcdict entry ;;
      ld <- leaf_dist_pure depth entry tcdict players ;;
      deterministic_counts depth tcdict players rest
        (accumulate out (contribution inner_picks ld))
  end.
End Deterministic.

(** The row [tc] lists the outcome [o], and [o] is a row itself. *)
Definition refers (tcdict : Table) (tc o : string) : Prop :=
  exists row listed w,
    dict_get tcdict tc = Some row /\ listed_outcomes row = Ok listed /\
    In (o, w) listed /\ dict_mem tcdict o = true.

(** The table is acyclic: some rank decreases along every reference. *)
Definition acyclic (tcdict : Table) : Prop :=
  exists rank : string -> nat, forall tc o, refers tcdict tc o -> (rank o < rank tc)%nat.

(** A check that [rank] decreases along every reference of the table. *)
Definition ranked_by (rank : string -> nat) (tcdict : Table) : bool :=
  forallb (fun entry : string * Row =>
             match listed_outcomes (snd entry) with
             | Ok listed =>
                 forallb (fun ow : string * Z =>
                            (negb (dict_mem tcdict (fst ow))
                             || Nat.ltb (rank (fst ow)) (rank (fst entry)))%bool)
                         listed
             | Raise _ => true
             end) tcdict.


(** ** Total mass and sound rows *)

(** [sum(d.values())] *)
Definition total_mass {F : Type} {PF : PyFloat F} (d : dict F) : F :=
  fold_left fadd (values d) (of_int 0).







(** ** Fixture tables *)

(** A boss with a no-drop weight and a nested class, a boss whose first
    outcome is gold, a negative-Picks boss, and rows used to probe the edge
    cases: a reference to a name that is no row, an outcome listed twice, a
    row that lists nothing, a row whose listed weights are all zero, a row
    with a negative no-drop weight, a row of nine equally likely runes. *)
Definition fixture : Table :=
  [ ("Boss", [("Treasure Class", "Boss"); ("Picks", "2"); ("NoDrop", "1");
              ("Item1", "Runes"); ("Prob1", "3"); ("Item2", "gem"); ("Prob2", "1")]);
    ("Runes", [("Treasure Class", "Runes"); ("Picks", "1"); ("NoDrop", "");
               ("Item1", "r01"); ("Prob1", "3"); ("Item2", "r02"); ("Prob2", "1");
               ("Item3", ""); ("Prob3", "")]);
    ("Duriel", [("Treasure Class", "Duriel"); ("Picks", "7"); ("NoDrop", "");
                ("Item1", "gld,mul=1280"); ("Prob1", "1"); ("Item2", "Runes"); ("Prob2", "3")]);
    ("Countess", [("Treasure Class", "Countess"); ("Picks", "-3"); ("NoDrop", "");
                  ("Item1", "Runes"); ("Prob1", "2"); ("Item2", "gem"); ("Prob2", "5")]);
    ("Stray", [("Treasure Class", "Stray"); ("Picks", "1"); ("NoDrop", "");
               ("Item1", "Nowhere"); ("Prob1", "1")]);
    ("Twice", [("Treasure Class", "Twice"); ("Picks", "1"); ("NoDrop", "");
               ("Item1", "amu"); ("Prob1", "1"); ("Item2", "amu"); ("Prob2", "1")]);
    ("Bare", [("Treasure Class", "Bare"); ("Picks", "1"); ("NoDrop", "");
              ("Item1", ""); ("Prob1", "")]);
    ("Void", [("Treasure Class", "Void"); ("Picks", "1"); ("NoDrop", "1");
              ("Item1", "amu"); ("Prob1", "0")]);
    ("Minus", [("Treasure Class", "Minus"); ("Picks", "1"); ("NoDrop", "-1");
               ("Item1", "amu"); ("Prob1", "3")]);
    ("Nine", [("Treasure Class", "Nine"); ("Picks", "1"); ("NoDrop", "");
              ("Item1", "r01"); ("Prob1", "1"); ("Item2", "r02"); ("Prob2", "1");
              ("Item3", "r03"); ("Prob3", "1"); ("Item4", "r04"); ("Prob4", "1");
              ("Item5", "r05"); ("Prob5", "1"); ("Item6", "r06"); ("Prob6", "1");
              ("Item7", "r07"); ("Prob7", "1"); ("Item8", "r08"); ("Prob8", "1");
              ("Item9", "r09"); ("Prob9", "1")]) ].

(** In the fixture only [Runes] is referred to. *)
Definition fixture_rank (tc : string) : nat :=
  if (tc =? "Runes")%string then 0%nat else 1%nat.

(** ** The pick aggregators without the memo *)

Section PickReference.
Context {F : Type} {PF : PyFloat F}.

(** [one_pick_loop] with [leaf_dist_pure] in the place of [leaf_dist]. *)
Fixpoint one_pick_loop_pure (depth : nat) (tcdict : Table) (players : Z)
    (outs : dict F) (out : dict F) : result (dict F) :=
  match outs with
  | [] => Ok out
  | (tc1, p1) :: rest =>
      if (tc1 =? "")%string then one_pick_loop_pure depth tcdict players rest out
      else
        match dict_get tcdict tc1 with
        | Some row1 =>
            inner_picks <- picks_of row1 ;;
            ld <- leaf_dist_pure depth tc1 tcdict players ;;
            one_pick_loop_pure depth tcdict players rest
              (add_counts p1 inner_picks ld out)
        | None =>
            one_pick_loop_pure depth tcdict players rest (dict_add out tc1 p1)
        end
  end.

Definition one_pick_pure (depth : nat) (root_tc : string) (tcdict : Table)
    (players : Z) : result (dict F) :=
  outs <- outcome_probs root_tc tcdict players ;;
  one_pick_loop_pure depth tcdict players outs [].

Definition per_kill_pure (depth : nat) (root_tc : string) (tcdict : Table)
    (players : Z) : result (dict F) :=
  picks <- effective_picks root_tc tcdict ;;
  if picks <? 0 then
    row <- getitem tcdict root_tc ;;
    pairs <- listed_outcomes row ;;
    deterministic_counts depth tcdict players
      (firstn (Z.to_nat (Z.abs picks)) (rollseq_of pairs)) []
  else
    one <- one_pick_pure depth root_tc tcdict players ;;
    Ok (dict_comp (fun v => fmul v (of_int picks)) one).

(** The name is a terminal item code: not empty and no row of the table. *)
Definition terminal (tcdict : Table) (k : string) : Prop :=
  k <> "" /\ dict_mem tcdict k = false.
(** Every entry of [memo] is an entry of [memo'], unchanged. *)
Definition keeps (memo memo' : Memo (F := F)) : Prop :=
  forall key d, dict_get memo key = Some d -> dict_get memo' key = Some d.
End PickReference.

(** ** More of [str], on ASCII text *)

Definition is_lower (c : ascii) : bool :=
  let n := nat_of_ascii c in (Nat.leb 97 n && Nat.leb n 122)%bool.

Definition is_upper (c : ascii) : bool :=
  let n := nat_of_ascii c in (Nat.leb 65 n && Nat.leb n 90)%bool.

Definition to_upper (c : ascii) : ascii :=
  if is_lower c then ascii_of_nat (nat_of_ascii c - 32) else c.

Definition to_lower (c : ascii) : ascii :=
  if is_upper c then ascii_of_nat (nat_of_ascii c + 32) else c.

(** [s.upper()] *)
Fixpoint upper (s : string) : string :=
  match s with
  | EmptyString => EmptyString
  | String c s' => String (to_upper c) (upper s')
  end.

(** [s.title()]: a cased character is upper-cased after an uncased one (or
    at the start) and lower-cased after a cased one. *)
Fixpoint title_from (previous_is_cased : bool) (s : string) : string :=
  match s with
  | EmptyString => EmptyString
  | String c s' =>
      if is_lower c then
        String (if previous_is_cased then c else to_upper c) (title_from true s')
      else if is_upper c then
        String (if previous_is_cased then to_lower c else c) (title_from true s')
      else String c (title_from false s')
  end.

Definition title (s : string) : string := title_from false s.

(** [s.rstrip()] and [s.strip()] *)
Fixpoint rstrip (s : string) : string :=
  match s with
  | EmptyString => EmptyString
  | String c s' =>
      match rstrip s' with
      | EmptyString => if is_space c then EmptyString else String c EmptyString
      | r => String c r
      end
  end.

Definition strip (s : string) : string := rstrip (lstrip s).

(** [s.endswith(suffix)] *)
Definition endswith (s suffix : string) : bool :=
  let n := String.length s in
  let m := String.length suffix in
  (Nat.leb m n && (substring (n - m) m s =? suffix)%string)%bool.

(** [s.replace(old, new)] for a non-empty [old]: the occurrences are taken
    from the left and do not overlap; [skip] counts the characters of an
    occurrence still to be passed over. *)
Fixpoint replace_from (old new : string) (skip : nat) (s : string) : string :=
  match s with
  | EmptyString => EmptyString
  | String c s' =>
      match skip with
      | S skip' => replace_from old new skip' s'
      | O =>
          if String.prefix old s then
            (new ++ replace_from old new (String.length old - 1) s')%string
          else String c (replace_from old new 0 s')
      end
  end.

Definition str_replace (s old new : string) : string := replace_from old new 0 s.

(** [sub in s] *)
Fixpoint contains (s sub : string) : bool :=
  (String.prefix sub s ||
   match s with
   | EmptyString => false
   | String _ s' => contains s' sub
   end)%bool.

(** ** Loading the tables (lines 30-46)

    [csv.DictReader] is outside the model: the loaders take the rows it
    yields, every cell a string (no row shorter or longer than the header). *)

(** Lines 34-35: [for row in reader: out[row[key_field]] = row]. *)
Fixpoint index_rows (rows : list Row) (key_field : string) (out : Table)
    : result Table :=
  match rows with
  | [] => Ok out
  | row :: rest =>
      key <- getitem row key_field ;;
      index_rows rest key_field (dict_set out key row)
  end.

Definition load_tsv_dict (rows : list Row) (key_field : string) : result Table :=
  index_rows rows key_field [].

(** The last row of [rows] whose [key_field] cell is [k]. *)
Fixpoint last_row (rows : list Row) (key_field k : string) : option Row :=
  match rows with
  | [] => None
  | row :: rest =>
      match last_row rest key_field k with
      | Some r => Some r
      | None =>
          match dict_get row key_field with
          | Some k' => if (k' =? k)%string then Some row else None
          | None => None
          end
      end
  end.

(** [row.get(k, "")] *)
Definition get_or_empty (d : dict string) (k : string) : string :=
  match dict_get d k with
  | Some v => v
  | None => ""
  end.

(** Lines 42-45. *)
Fixpoint code_names (rows : list Row) (code_to_name : dict string) : dict string :=
  match rows with
  | [] => code_to_name
  | row :: rest =>
      match dict_get row "code" with
      | Some code =>
          if truthy code then
            code_names rest (dict_set code_to_name code (title (get_or_empty row "name")))
          else code_names rest code_to_name
      | None => code_names rest code_to_name
      end
  end.

Definition load_misc_code_to_name (rows : list Row) : result (dict string) :=
  misc <- load_tsv_dict rows "name" ;;
  Ok (code_names (values misc) []).

(** ** The economy classifier (lines 161-198) *)

(** Lines 169-196: the bucket of a display name, first match first. *)
Definition bucket_of (name : string) : option string :=
  if endswith name " Rune" then Some (upper (str_replace name " Rune" ""))
  else if ((name =? "Key Of Terror") || (name =? "Key Of Hate")
           || (name =? "Key Of Destruction"))%string%bool then Some "UKEY"
  else if startswith name "Perfect " then
    Some (if contains name "Amethyst" then "PA" else "PG")
  else if startswith name "Flawless " then
    Some (if contains name "Amethyst" then "FA" else "FG")
  else None.

(** Lines 165-167: the display name of a code, or nothing. *)
Definition display_name (code_to_name : dict string) (code : string) : string :=
  strip (get_or_empty code_to_name code).

Section Economy.
Context {F : Type} {PF : PyFloat F}.

Fixpoint bucketize_loop (items : dict F) (code_to_name : dict string)
    (out : dict F) : dict F :=
  match items with
  | [] => out
  | (code, cnt) :: rest =>
      let name := display_name code_to_name code in
      if negb (truthy name) then bucketize_loop rest code_to_name out
      else
        match bucket_of name with
        | Some bucket => bucketize_loop rest code_to_name (dict_add out bucket cnt)
        | None => bucketize_loop rest code_to_name out
        end
  end.

Definition economy_bucketize (leaf_counts : dict F) (code_to_name : dict string)
    : dict F :=
  bucketize_loop leaf_counts code_to_name [].

(** [d.get(k, 0.0)] *)
Definition get_or_zero (d : dict F) (k : string) : F :=
  match dict_get d k with
  | Some v => v
  | None => of_int 0
  end.

(** Line 218: [sum(d.get(k, 0.0) * price.get(k, 0.0) for k in d.keys())]. *)
Definition rpk_from_drops (d price : dict F) : F :=
  fold_left fadd
    (map (fun k => fmul (get_or_zero d k) (get_or_zero price k)) (keys d))
    (of_int 0).
End Economy.

(** The bucket a terminal code is counted in, if any (lines 165-196). *)
Definition bucket_of_code (code_to_name : dict string) (code : string)
    : option string :=
  let name := display_name code_to_name code in
  if truthy name then bucket_of name else None.

(** The code is counted in [bucket]. *)
Definition in_bucket (code_to_name : dict string) (bucket code : string) : bool :=
  match bucket_of_code code_to_name code with
  | Some b => (b =? bucket)%string
  | None => false
  end.

(** ** The driver (lines 221-290)

    Argument parsing, the three loaders and the writing of the files are
    outside the model: [main_run] takes the loaded tables and returns the
    summary it prints together with the files it has written, in order.  The
    files written before an exception stay written. *)

(** The comparison [list.sort] applies to the keys. *)
Class PyFloatLt (F : Type) : Type := { flt : F -> F -> bool }.

#[global] Instance b64_lt : PyFloatLt float := {| flt := PrimFloat.ltb |}.
#[global] Instance qf_lt : PyFloatLt Q := {| flt := fun x y => negb (Qle_bool y x) |}.

(** Line 242. *)
Definition diff_suffix (difficulty : string) : string :=
  if (difficulty =? "N")%string then ""
  else if (difficulty =? "NM")%string then " (N)"
  else " (H)".

(** Lines 250-259. *)
Definition bosses (difficulty : string) : dict string :=
  let s := diff_suffix difficulty in
  [ ("diablo", "Diablo" ++ s); ("baal", "Baal" ++ s);
    ("mephisto", "Mephisto" ++ s); ("andariel", "Andariel" ++ s);
    ("nihl", "Nihlathak" ++ s); ("countess", "Countess" ++ s);
    ("summoner", "Summoner" ++ s); ("council", "Council" ++ s) ]%string.

Section Driver.
Context {F : Type} {PF : PyFloat F} {PL : PyFloatLt F}.

(** What [json.dump] is given, and the name of the file. *)
Record drops_file : Type := {
  file_name : string;
  boss : string;
  difficulty : string;
  players : Z;
  drops : dict F
}.

(** Lines 269 and 281: [{k: float(v) for k, v in econ.items() if k in price}]. *)
Definition priced (econ price : dict F) : dict F :=
  fold_left (fun acc kv =>
               if dict_mem price (fst kv) then dict_set acc (fst kv) (snd kv) else acc)
            econ [].

(** Lines 264-275. *)
Fixpoint bosses_loop (depth : nat) (tcdict : Table) (code_to_name : dict string)
    (price : dict F) (diff : string) (nplayers : Z) (todo : dict string)
    (files : list drops_file) (summary : list (string * F))
    : result (list (string * F)) * list drops_file :=
  match todo with
  | [] => (Ok summary, files)
  | (out_name, tc) :: rest =>
      match expected_counts_per_kill depth tc tcdict nplayers with
      | Raise e => (Raise e, files)
      | Ok leaf_counts =>
          let econ := priced (economy_bucketize leaf_counts code_to_name) price in
          bosses_loop depth tcdict code_to_name price diff nplayers rest
            (files ++ [{| file_name := "boss." ++ out_name ++ ".drops.json";
                          boss := out_name; difficulty := diff;
                          players := nplayers; drops := econ |}])%list
            (summary ++ [(out_name, rpk_from_drops econ price)])%list
      end
  end.

(** Line 287: [summary.sort(key=lambda x: x[1], reverse=True)], a stable
    sort, for keys that compare (no NaN). *)
Fixpoint insert_desc (x : string * F) (l : list (string * F)) : list (string * F) :=
  match l with
  | [] => [x]
  | y :: t => if flt (snd x) (snd y) then y :: insert_desc x t else x :: l
  end.

Definition sort_desc (l : list (string * F)) : list (string * F) :=
  fold_right insert_desc [] l.

(** Lines 277-289. *)
Definition main_run (depth : nat) (tcdict : Table) (code_to_name : dict string)
    (price : dict F) (diff : string) (nplayers : Z)
    : result (list (string * F)) * list drops_file :=
  match bosses_loop depth tcdict code_to_name price diff nplayers (bosses diff) [] [] with
  | (Raise e, files) => (Raise e, files)
  | (Ok summary, files) =>
      match getitem (bosses diff) "council" with
      | Raise e => (Raise e, files)
      | Ok council_tc =>
          match expected_counts_per_kill depth council_tc tcdict nplayers with
          | Raise e => (Raise e, files)
          | Ok council_leaf =>
              let council_econ :=
                priced (economy_bucketize
                          (dict_comp (fun v => fmul v (of_int 5)) council_leaf)
                          code_to_name) price in
              (Ok (sort_desc
                     (summary ++ [("council5", rpk_from_drops council_econ price)])%list),
               (files ++ [{| file_name := "boss.council5.drops.json";
                             boss := "council5"; difficulty := diff;
                             players := nplayers; drops := council_econ |}])%list)
          end
      end
  end.
End Driver.


(** The counts times a weight per key. *)
Definition weighted (w : string -> Q) (d : dict Q) : dict Q :=
  map (fun kv => (fst kv, (snd kv * w (fst kv))%Q)) d.

(** ** A fixture for the driver *)

(** Every Hell boss drops the rune [r01] once in four picks and the gem
    [gpv] otherwise; the council rolls twice. *)
Definition hell_row (picks : string) : Row :=
  [("Picks", picks); ("NoDrop", ""); ("Item1", "r01"); ("Prob1", "1");
   ("Item2", "gpv"); ("Prob2", "3")].

Definition hell_table : Table :=
  [ ("Diablo (H)", hell_row "1"); ("Baal (H)", hell_row "1");
    ("Mephisto (H)", hell_row "1"); ("Andariel (H)", hell_row "1");
    ("Nihlathak (H)", hell_row "1"); ("Countess (H)", hell_row "1");
    ("Summoner (H)", hell_row "1"); ("Council (H)", hell_row "2") ].

Definition hell_names : dict string :=
  [("r01", "El Rune"); ("gpv", "Perfect Amethyst")].

(** Two rows of [misc.txt] that share a name. *)
Definition misc_rows : list Row :=
  [ [("name", "el rune"); ("code", "r01")];
    [("name", "key of terror"); ("code", "pk1")];
    [("name", "el rune"); ("code", "r02")];
    [("name", "not used"); ("code", "")] ].
(** ** Dictionary lemmas *)

Section DictFacts.
Context {V : Type}.
Implicit Types (d : dict V) (k : string) (v : V).

Lemma dict_get_set_same d k v : dict_get (dict_set d k v) k = Some v.
Proof.
  induction d as [|[k' v'] d IH]; simpl.
  - now rewrite String.eqb_refl.
  - destruct (String.eqb k' k) eqn:E; simpl; rewrite E; auto.
Qed.

Lemma dict_get_set_other d k k' v :
  k <> k' -> dict_get (dict_set d k v) k' = dict_get d k'.
Proof.
  intros Hne. induction d as [|[k0 v0] d IH]; simpl.
  - destruct (String.eqb k k') eqn:E; auto.
    apply String.eqb_eq in E. contradiction.
  - destruct (String.eqb k0 k) eqn:E; simpl.
    + apply String.eqb_eq in E. subst k0.
      destruct (String.eqb k k') eqn:E'; auto.
      apply String.eqb_eq in E'. contradiction.
    + now rewrite IH.
Qed.

Lemma dict_get_None_keys d k : dict_get d k = None <-> ~ In k (keys d).
Proof.
  induction d as [|[k' v'] d IH]; simpl.
  - tauto.
  - destruct (String.eqb k' k) eqn:E.
    + apply String.eqb_eq in E. split; [discriminate | tauto].
    + apply String.eqb_neq in E. rewrite IH. tauto.
Qed.

Lemma dict_get_Some_In d k v : dict_get d k = Some v -> In (k, v) d.
Proof.
  induction d as [|[k' v'] d IH]; simpl; [discriminate|].
  destruct (String.eqb k' k) eqn:E.
  - apply String.eqb_eq in E. intros [= ->]. subst. now left.
  - auto.
Qed.

Lemma In_dict_get d k v : NoDup (keys d) -> In (k, v) d -> dict_get d k = Some v.
Proof.
  induction d as [|[k' v'] d IH]; simpl; [tauto|].
  intros Hnd [Heq | Hin].
  - injection Heq as -> ->. now rewrite String.eqb_refl.
  - inversion Hnd as [|? ? Hni Hnd']; subst.
    destruct (String.eqb k' k) eqn:E; auto.
    apply String.eqb_eq in E. subst k'.
    exfalso. apply Hni. change (In (fst (k, v)) (map fst d)). now apply in_map.
Qed.

Lemma dict_set_fresh d k v : ~ In k (keys d) -> dict_set d k v = (d ++ [(k, v)])%list.
Proof.
  induction d as [|[k' v'] d IH]; simpl; auto.
  intros Hni. destruct (String.eqb k' k) eqn:E.
  - apply String.eqb_eq in E. tauto.
  - rewrite IH; tauto.
Qed.

Lemma keys_dict_set d k v :
  keys (dict_set d k v) = if dict_mem d k then keys d else (keys d ++ [k])%list.
Proof.
  unfold dict_mem. induction d as [|[k' v'] d IH]; simpl; auto.
  destruct (String.eqb k' k) eqn:E; simpl; auto.
  rewrite IH. now destruct (dict_get d k).
Qed.

Lemma NoDup_keys_set d k v : NoDup (keys d) -> NoDup (keys (dict_set d k v)).
Proof.
  intros Hnd. rewrite keys_dict_set. unfold dict_mem.
  destruct (dict_get d k) eqn:E; auto.
  apply dict_get_None_keys in E.
  apply NoDup_app; auto.
  - constructor; [simpl; tauto | constructor].
  - intros x Hx [<- | []]; auto.
Qed.

Lemma In_keys_set d k k' v : In k' (keys (dict_set d k v)) <-> k' = k \/ In k' (keys d).
Proof.
  rewrite keys_dict_set. unfold dict_mem.
  destruct (dict_get d k) eqn:E.
  - split; auto. intros [-> | H]; auto.
    apply dict_get_Some_In in E.
    change (In (fst (k, v0)) (map fst d)). now apply in_map.
  - rewrite in_app_iff. simpl. intuition.
Qed.
End DictFacts.

Lemma dict_comp_acc {V W : Type} (f : V -> W) (d : dict V) (acc : dict W) :
  NoDup (keys acc ++ keys d) ->
  fold_left (fun a kv => dict_set a (fst kv) (f (snd kv))) d acc
  = (acc ++ map (fun kv => (fst kv, f (snd kv))) d)%list.
Proof.
  revert acc. induction d as [|[k v] d IH]; intros acc Hnd; simpl.
  - now rewrite app_nil_r.
  - simpl in Hnd.
    rewrite dict_set_fresh.
    + rewrite IH.
      * now rewrite <- app_assoc.
      * unfold keys in *. rewrite map_app. simpl. rewrite <- app_assoc. exact Hnd.
    + apply NoDup_remove_2 in Hnd. intros Hin. apply Hnd.
      apply in_or_app. now left.
Qed.

(** On a dictionary (keys pairwise distinct) the comprehension is a map. *)
Lemma dict_comp_map {V W : Type} (f : V -> W) (d : dict V) :
  NoDup (keys d) -> dict_comp f d = map (fun kv => (fst kv, f (snd kv))) d.
Proof.
  intros Hnd. unfold dict_comp. now rewrite dict_comp_acc.
Qed.

(** ** Results are dictionaries *)

Section WellFormed.
Context {F : Type} {PF : PyFloat F}.

Lemma dict_add_nodup (d : dict F) k x : NoDup (keys d) -> NoDup (keys (dict_add d k x)).
Proof. apply NoDup_keys_set. Qed.

Lemma add_scaled_nodup p (sub dist : dict F) :
  NoDup (keys dist) -> NoDup (keys (add_scaled p sub dist)).
Proof.
  revert dist. induction sub as [|[k v] sub IH]; simpl; auto using dict_add_nodup.
Qed.

Lemma add_counts_nodup p n (ld out : dict F) :
  NoDup (keys out) -> NoDup (keys (add_counts p n ld out)).
Proof.
  revert out. induction ld as [|[k v] ld IH]; simpl; auto using dict_add_nodup.
Qed.

Lemma add_rolls_nodup n (ld out : dict F) :
  NoDup (keys out) -> NoDup (keys (add_rolls n ld out)).
Proof.
  revert out. induction ld as [|[k v] ld IH]; simpl; auto using dict_add_nodup.
Qed.

Lemma normalise_nodup entries total (acc r : dict F) :
  NoDup (keys acc) -> normalise entries total acc = Ok r -> NoDup (keys r).
Proof.
  revert acc. induction entries as [|[it w] entries IH]; simpl; intros acc Hnd H.
  - now injection H as <-.
  - destruct (py_div (of_int w) total); simpl in H; [|discriminate].
    eapply IH; [|exact H]. now apply NoDup_keys_set.
Qed.

Lemma one_pick_loop_nodup depth tcdict players outs (out r : dict F) memo memo' :
  NoDup (keys out) ->
  one_pick_loop depth tcdict players outs out memo = (Ok r, memo') ->
  NoDup (keys r).
Proof.
  revert out memo. induction outs as [|[tc1 p1] outs IH]; simpl; intros out memo Hnd H.
  - now injection H as <- _.
  - destruct (String.eqb tc1 ""); [eauto|].
    destruct (dict_get tcdict tc1).
    + destruct (picks_of r0); [|discriminate].
      destruct (leaf_dist depth tc1 tcdict players memo) as [[ld|e] m]; [|discriminate].
      eapply IH; [|exact H]. now apply add_counts_nodup.
    + eapply IH; [|exact H]. now apply dict_add_nodup.
Qed.

Lemma one_pick_nodup depth root tcdict players memo (r : dict F) memo' :
  expected_counts_for_one_pick depth root tcdict players memo = (Ok r, memo') ->
  NoDup (keys r).
Proof.
  unfold expected_counts_for_one_pick.
  destruct (outcome_probs root tcdict players); [|discriminate].
  apply one_pick_loop_nodup. constructor.
Qed.
End WellFormed.

(** ** The pick count (lines 118-133) *)

Section Picks.
Context {F : Type} {PF : PyFloat F}.

Lemma effective_picks_eq root tcdict row k :
  dict_get tcdict root = Some row ->
  picks_of row = Ok k ->
  effective_picks root tcdict =
    Ok (if (0 <? k) && startswith (item1_of row) "gld" then Z.max 0 (k - 1) else k).
Proof.
  intros Hrow Hk. unfold effective_picks, declared_picks, getitem.
  rewrite Hrow. simpl. rewrite Hk. simpl.
  destruct (0 <? k); simpl; auto.
  now destruct (startswith (item1_of row) "gld").
Qed.

(** C3: a root with declared Picks [k > 0] whose [Item1] begins with "gld"
    is aggregated with [max 0 (k - 1)] picks; a root whose [Item1] does not
    begin with "gld", or with [k <= 0], is aggregated with [k] picks.  The
    pick count [effective_picks] is the one per-kill aggregation uses: its
    sign chooses the branch and its value is the scaling factor. *)
Theorem effective_picks_gold_adjustment depth root tcdict players row k :
  dict_get tcdict root = Some row ->
  picks_of row = Ok k ->
  (0 < k -> startswith (item1_of row) "gld" = true ->
     effective_picks root tcdict = Ok (Z.max 0 (k - 1))) /\
  (k <= 0 \/ startswith (item1_of row) "gld" = false ->
     effective_picks root tcdict = Ok k) /\
  (forall eff, effective_picks root tcdict = Ok eff ->
     expected_counts_per_kill depth root tcdict players =
       if eff <? 0 then negative_picks depth root tcdict players eff
       else
         one <- fst (expected_counts_for_one_pick depth root tcdict players []) ;;
         Ok (dict_comp (fun v => fmul v (of_int eff)) one)).
Proof.
  intros Hrow Hk. pose proof (effective_picks_eq _ _ _ _ Hrow Hk) as E.
  split; [|split].
  - intros Hpos Hgld. rewrite E, Hgld.
    now replace (0 <? k) with true by (symmetry; apply Z.ltb_lt; lia).
  - intros [Hle | Hgld]; rewrite E.
    + now replace (0 <? k) with false by (symmetry; apply Z.ltb_ge; lia).
    + rewrite Hgld. now rewrite andb_false_r.
  - intros eff Heff. unfold expected_counts_per_kill. now rewrite Heff.
Qed.

(** C1: for a root with Picks [k > 0] whose [Item1] does not begin with
    "gld", the per-kill vector is the one-outer-pick vector (computed with a
    fresh memo) with every count multiplied by [k]; when the one-pick
    operation raises, so does the per-kill one. *)
Theorem per_kill_is_k_times_one_pick depth root tcdict players row k :
  dict_get tcdict root = Some row ->
  picks_of row = Ok k ->
  0 < k ->
  startswith (item1_of row) "gld" = false ->
  expected_counts_per_kill depth root tcdict players =
    one <- fst (expected_counts_for_one_pick depth root tcdict players []) ;;
    Ok (map (fun kv => (fst kv, fmul (snd kv) (of_int k))) one).
Proof.
  intros Hrow Hk Hpos Hgld. unfold expected_counts_per_kill.
  rewrite (effective_picks_eq _ _ _ _ Hrow Hk), Hgld, andb_false_r. simpl.
  replace (k <? 0) with false by (symmetry; apply Z.ltb_ge; lia).
  destruct (expected_counts_for_one_pick depth root tcdict players [])
    as [[one|e] memo] eqn:E; simpl; auto.
  now rewrite (dict_comp_map _ one (one_pick_nodup _ _ _ _ _ _ _ E)).
Qed.
End Picks.

(** The gold boss of the fixture is aggregated with six of its seven picks,
    in binary64. *)
Lemma effective_picks_gold_adjustment_witness :
  effective_picks "Duriel" fixture = Ok 6 /\
  expected_counts_per_kill (F := float) 3 "Duriel" fixture 1
  = Ok [("gld,mul=1280", 1.5%float); ("r01", 3.375%float); ("r02", 1.125%float)].
Proof.
  destruct (effective_picks_gold_adjustment (F := float) 3 "Duriel" fixture 1
              [("Treasure Class", "Duriel"); ("Picks", "7"); ("NoDrop", "");
               ("Item1", "gld,mul=1280"); ("Prob1", "1"); ("Item2", "Runes"); ("Prob2", "3")]
              7 eq_refl eq_refl) as (Hgold & _ & Huse).
  split.
  - apply Hgold; [lia | reflexivity].
  - rewrite (Huse 6); [vm_compute; reflexivity | apply Hgold; [lia | reflexivity]].
Defined.

(** The two-pick boss of the fixture, in binary64. *)
Lemma per_kill_is_k_times_one_pick_witness :
  expected_counts_per_kill (F := float) 3 "Boss" fixture 1
  = Ok [("r01", 0.89999999999999991%float); ("r02", 0.29999999999999999%float);
        ("gem", 0.40000000000000002%float)].
Proof.
  rewrite (per_kill_is_k_times_one_pick (F := float) 3 "Boss" fixture 1
             [("Treasure Class", "Boss"); ("Picks", "2"); ("NoDrop", "1");
              ("Item1", "Runes"); ("Prob1", "3"); ("Item2", "gem"); ("Prob2", "1")]
             2 eq_refl eq_refl ltac:(lia) eq_refl).
  vm_compute. reflexivity.
Defined.

(** ** The memo key *)

Lemma uint_no_colon d : has_colon (NilEmpty.string_of_uint d) = false.
Proof. induction d; simpl; auto. Qed.

Lemma str_of_Z_no_colon z : has_colon (str_of_Z z) = false.
Proof.
  unfold str_of_Z, NilEmpty.string_of_int.
  destruct (Z.to_int z); simpl; apply uint_no_colon.
Qed.

Lemma has_colon_app a b : has_colon (a ++ b) = (has_colon a || has_colon b)%bool.
Proof. induction a; simpl; auto. now rewrite IHa, orb_assoc. Qed.

Lemma str_of_Z_inj z z' : str_of_Z z = str_of_Z z' -> z = z'.
Proof.
  unfold str_of_Z. intros H. apply DecimalZ.to_int_inj.
  pose proof (NilEmpty.isi (Z.to_int z)) as H1.
  pose proof (NilEmpty.isi (Z.to_int z')) as H2.
  rewrite H in H1. congruence.
Qed.

Lemma key_split a b d1 d2 :
  has_colon d1 = false -> has_colon d2 = false ->
  (a ++ "::p" ++ d1 = b ++ "::p" ++ d2)%string -> a = b /\ d1 = d2.
Proof.
  intros H1 H2. revert b. induction a as [|c a IH]; intros [|c' b] H; simpl in H.
  - injection H as ->. auto.
  - exfalso. injection H as <- H.
    destruct b as [|c1 b]; simpl in H; [discriminate|].
    injection H as <- H.
    destruct b as [|c2 b]; simpl in H; [discriminate|].
    injection H as <- H. subst d1.
    rewrite has_colon_app in H1. simpl in H1.
    now rewrite orb_true_r in H1.
  - exfalso. injection H as -> H.
    destruct a as [|c1 a]; simpl in H; [discriminate|].
    injection H as -> H.
    destruct a as [|c2 a]; simpl in H; [discriminate|].
    injection H as -> H. subst d2.
    rewrite has_colon_app in H2. simpl in H2.
    now rewrite orb_true_r in H2.
  - injection H as -> H. destruct (IH _ H) as [-> ->]. auto.
Qed.

(** The key pairs the node with the player count. *)
Lemma memo_key_inj tc tc' players players' :
  memo_key tc players = memo_key tc' players' -> tc = tc' /\ players = players'.
Proof.
  unfold memo_key. intros H.
  apply key_split in H; auto using str_of_Z_no_colon.
  destruct H as [-> H]. split; auto using str_of_Z_inj.
Qed.

(** ** Memoisation (lines 82-84 and 96-97) *)

Section MemoFacts.
Context {F : Type} {PF : PyFloat F}.
Variables (tcdict : Table) (players : Z).

Local Abbreviation pure depth := (fun o => leaf_dist_pure depth o tcdict players).
Local Abbreviation out_of_depth := (Raise RecursionError).

Lemma leaf_dist_pure_unfold depth tc :
  leaf_dist_pure (S depth) tc tcdict players =
    if (tc =? "")%string then Ok []
    else if negb (dict_mem tcdict tc) then Ok [(tc, of_int 1)]
    else
      outs <- outcome_probs tc tcdict players ;;
      leaf_loop_pure (pure depth) tcdict outs [].
Proof. reflexivity. Qed.

Lemma leaf_dist_unfold depth tc memo :
  leaf_dist (S depth) tc tcdict players memo =
    if (tc =? "")%string then (Ok [], memo)
    else if negb (dict_mem tcdict tc) then (Ok [(tc, of_int 1)], memo)
    else
      match dict_get memo (memo_key tc players) with
      | Some d => (Ok d, memo)
      | None =>
          match outcome_probs tc tcdict players with
          | Raise e => (Raise e, memo)
          | Ok outs =>
              match leaf_loop (fun o m => leaf_dist depth o tcdict players m)
                      tcdict outs [] memo with
              | (Ok dist, memo') => (Ok dist, dict_set memo' (memo_key tc players) dist)
              | (Raise e, memo') => (Raise e, memo')
              end
          end
      end.
Proof. reflexivity. Qed.

(** A result other than running out of depth does not depend on the depth
    left. *)
Lemma leaf_loop_pure_mono (rec rec' : string -> result (dict F)) outs dist r :
  (forall o r, rec o = r -> r <> out_of_depth -> rec' o = r) ->
  leaf_loop_pure rec tcdict outs dist = r -> r <> out_of_depth ->
  leaf_loop_pure rec' tcdict outs dist = r.
Proof.
  intros Hrec. revert dist.
  induction outs as [|[o p] outs IH]; simpl; intros dist H Hne; auto.
  destruct (String.eqb o ""); [eauto|].
  destruct (dict_mem tcdict o); [|eauto].
  destruct (rec o) as [sub|e] eqn:E; simpl in H.
  - rewrite (Hrec o (Ok sub)); auto; [simpl; eauto | discriminate].
  - subst r. rewrite (Hrec o (Raise e)); auto.
Qed.

Lemma leaf_dist_pure_S depth tc r :
  leaf_dist_pure depth tc tcdict players = r -> r <> out_of_depth ->
  leaf_dist_pure (S depth) tc tcdict players = r.
Proof.
  revert tc r. induction depth as [|depth IH]; intros tc r H Hne.
  - simpl in H. congruence.
  - rewrite leaf_dist_pure_unfold in H. rewrite (leaf_dist_pure_unfold (S depth)).
    destruct (String.eqb tc ""); auto.
    destruct (negb (dict_mem tcdict tc)); auto.
    destruct (outcome_probs tc tcdict players) as [outs|e]; auto.
    cbn [bind] in *.
    eapply leaf_loop_pure_mono; [| exact H | exact Hne].
    intros o r0 Hr Hn. now apply IH.
Qed.

Lemma leaf_dist_pure_le depth depth' tc r :
  (depth <= depth')%nat ->
  leaf_dist_pure depth tc tcdict players = r -> r <> out_of_depth ->
  leaf_dist_pure depth' tc tcdict players = r.
Proof.
  induction 1; auto. intros H0 Hne. apply leaf_dist_pure_S; auto.
Qed.

Lemma leaf_dist_pure_agree depth depth' tc d r :
  leaf_dist_pure depth tc tcdict players = Ok d ->
  leaf_dist_pure depth' tc tcdict players = r -> r <> out_of_depth ->
  r = Ok d.
Proof.
  intros H H' Hne.
  pose proof (leaf_dist_pure_le depth (Nat.max depth depth') tc (Ok d)
                (Nat.le_max_l _ _) H ltac:(discriminate)) as E.
  pose proof (leaf_dist_pure_le depth' (Nat.max depth depth') tc r
                (Nat.le_max_r _ _) H' Hne) as E'.
  congruence.
Qed.


Lemma leaf_loop_sound depth (rec : string -> Memo -> result (dict F) * Memo) :
  (forall o memo, memo_valid tcdict memo -> call_sound tcdict players depth o (rec o memo)) ->
  forall outs dist memo,
    memo_valid tcdict memo ->
    let res := leaf_loop rec tcdict outs dist memo in
    memo_valid tcdict (snd res) /\
    (forall d, fst res = Ok d ->
       exists D, leaf_loop_pure (pure D) tcdict outs dist = Ok d) /\
    (leaf_loop_pure (pure depth) tcdict outs dist <> out_of_depth ->
     fst res = leaf_loop_pure (pure depth) tcdict outs dist).
Proof.
  intros Hrec. induction outs as [|[o p] outs IH]; simpl; intros dist memo Hv.
  - split; [exact Hv|]. split; [|reflexivity]. intros d Hd. now exists O.
  - destruct (String.eqb o ""); [now apply IH|].
    destruct (dict_mem tcdict o); [|now apply IH].
    destruct (Hrec o memo Hv) as (Hv' & Hsub & Hagree).
    destruct (rec o memo) as [[sub|e] memo'] eqn:E; simpl in *.
    + destruct (IH (add_scaled p sub dist) memo' Hv') as (Hv2 & Hd & Ha).
      split; [exact Hv2|]. split.
      * intros d Hres. destruct (Hd d Hres) as [D2 HD2].
        destruct (Hsub sub eq_refl) as [D1 HD1].
        exists (Nat.max D1 D2).
        rewrite (leaf_dist_pure_le D1 _ o (Ok sub) (Nat.le_max_l _ _) HD1)
          by discriminate.
        simpl. eapply leaf_loop_pure_mono; [| exact HD2 | discriminate].
        intros o' r Hr Hne. simpl.
        apply (leaf_dist_pure_le D2); auto using Nat.le_max_r.
      * intros Hne.
        destruct (leaf_dist_pure depth o tcdict players) as [sub'|e'] eqn:Ep.
        -- assert (Es : Ok sub = Ok sub') by (apply Hagree; discriminate).
           injection Es as <-. simpl in *. auto.
        -- simpl in Hne. specialize (Hagree Hne). discriminate.
    + split; [exact Hv'|]. split; [discriminate|].
      intros Hne.
      destruct (leaf_dist_pure depth o tcdict players) as [sub'|e'] eqn:Ep.
      * assert (Es : Raise e = Ok sub') by (apply Hagree; discriminate).
        discriminate.
      * simpl in Hne. now specialize (Hagree Hne).
Qed.

Lemma leaf_dist_sound depth :
  forall tc memo,
    memo_valid tcdict memo ->
    call_sound tcdict players depth tc (leaf_dist depth tc tcdict players memo).
Proof.
  induction depth as [|depth IH]; intros tc memo Hv.
  - unfold call_sound. simpl. split; [exact Hv|]. split; [discriminate|].
    intros Hne. now elim Hne.
  - unfold call_sound. rewrite leaf_dist_unfold, leaf_dist_pure_unfold.
    destruct (String.eqb tc "") eqn:Etc.
    { simpl. repeat split; auto. intros d [= <-]. exists 1%nat.
      rewrite leaf_dist_pure_unfold. now rewrite Etc. }
    destruct (negb (dict_mem tcdict tc)) eqn:Emem.
    { simpl. repeat split; auto. intros d [= <-]. exists 1%nat.
      rewrite leaf_dist_pure_unfold. now rewrite Etc, Emem. }
    destruct (dict_get memo (memo_key tc players)) as [d0|] eqn:Ehit.
    { simpl. split; [exact Hv|]. split.
      - intros d [= <-]. eapply Hv; eauto.
      - intros Hne. destruct (Hv _ _ _ Ehit) as [D HD]. symmetry.
        apply (leaf_dist_pure_agree D (S depth) tc d0 _ HD); [|exact Hne].
        now rewrite leaf_dist_pure_unfold, Etc, Emem. }
    destruct (outcome_probs tc tcdict players) as [outs|e] eqn:Eouts.
    2:{ simpl. repeat split; auto. discriminate. }
    simpl.
    destruct (leaf_loop_sound depth _ (fun o m Hm => IH o m Hm) outs [] memo Hv)
      as (Hv' & Hd & Ha).
    destruct (leaf_loop _ tcdict outs [] memo) as [[dist|e] memo'] eqn:El;
      simpl in *.
    + assert (Hpure : exists D, leaf_dist_pure D tc tcdict players = Ok dist).
      { destruct (Hd dist eq_refl) as [D HD]. exists (S D).
        rewrite leaf_dist_pure_unfold, Etc, Emem, Eouts. exact HD. }
      split; [|split; auto].
      * intros tc' players' d Hget.
        destruct (String.eqb (memo_key tc players) (memo_key tc' players')) eqn:Ek.
        -- apply String.eqb_eq in Ek. rewrite <- Ek in Hget.
           rewrite dict_get_set_same in Hget. injection Hget as <-.
           apply memo_key_inj in Ek. destruct Ek as [<- <-]. exact Hpure.
        -- apply String.eqb_neq in Ek.
           rewrite dict_get_set_other in Hget by exact Ek. eauto.
      * intros d [= <-]. exact Hpure.
    + split; [exact Hv'|]. split; [discriminate | auto].
Qed.

Lemma memo_valid_empty : memo_valid tcdict [].
Proof. intros tc p d H. discriminate. Qed.
End MemoFacts.

Lemma populated_valid {F : Type} {PF : PyFloat F} (tcdict : Table) (memo : Memo) :
  populated tcdict memo -> memo_valid tcdict memo.
Proof.
  induction 1 as [|depth tc players memo _ IH].
  - apply memo_valid_empty.
  - apply (leaf_dist_sound tcdict players depth tc memo IH).
Qed.

(** ** Acyclic tables need only a bounded depth *)

Lemma ranked_by_acyclic rank tcdict : ranked_by rank tcdict = true -> acyclic tcdict.
Proof.
  intros H. exists rank. intros tc o (row & listed & w & Hrow & Hl & Hin & Hmem).
  unfold ranked_by in H. rewrite forallb_forall in H.
  specialize (H (tc, row) (dict_get_Some_In _ _ _ Hrow)). simpl in H.
  rewrite Hl, forallb_forall in H. specialize (H (o, w) Hin). simpl in H.
  rewrite Hmem in H. simpl in H. now apply Nat.ltb_lt.
Qed.

(** An exception passes through a bind unchanged. *)
Ltac same_exn :=
  first [ assumption | discriminate
        | let E := fresh in intros E; injection E as E; subst; congruence ].

Section Depth.
Context {F : Type} {PF : PyFloat F}.

Lemma normalise_keys entries total (acc r : dict F) :
  normalise entries total acc = Ok r ->
  forall k, In k (keys r) -> In k (keys acc) \/ In k (map fst entries).
Proof.
  revert acc. induction entries as [|[it w] entries IH]; simpl; intros acc H k Hk.
  - injection H as <-. auto.
  - destruct (py_div (of_int w) total); simpl in H; [|discriminate].
    destruct (IH _ H k Hk) as [Hin | Hin]; auto.
    apply In_keys_set in Hin. destruct Hin; auto.
Qed.

(** The outcomes of a row are its listed outcomes and the no-drop entry. *)
Lemma outcome_probs_keys tc tcdict players (outs : dict F) o :
  outcome_probs tc tcdict players = Ok outs ->
  In o (keys outs) ->
  o = "" \/
  exists row listed w,
    dict_get tcdict tc = Some row /\ listed_outcomes row = Ok listed /\ In (o, w) listed.
Proof.
  unfold outcome_probs, getitem. intros H Hin.
  destruct (dict_get tcdict tc) as [row|] eqn:Hrow; simpl in H; [|discriminate].
  destruct (listed_outcomes row) as [listed|] eqn:Hl; simpl in H; [|discriminate].
  destruct (with_nodrop row listed players) as [entries|] eqn:He; simpl in H;
    [|discriminate].
  destruct (normalise_keys _ _ _ _ H o Hin) as [[]|Hk].
  assert (Hsub : In o (map fst listed) \/ o = "").
  { unfold with_nodrop in He.
    destruct (dict_get row "NoDrop") as [v|]; [destruct (truthy v)|];
      try (injection He as <-; auto).
    destruct (py_int v); simpl in He; [|discriminate].
    destruct (nodrop_adjusted_weight _ _ _); simpl in He; [|discriminate].
    injection He as <-. rewrite map_app, in_app_iff in Hk. simpl in Hk.
    intuition. }
  destruct Hsub as [Hsub | ->]; auto.
  right. apply in_map_iff in Hsub. destruct Hsub as ([o' w] & <- & Hw).
  exists row, listed, w. auto.
Qed.

Lemma leaf_loop_pure_total (rec : string -> result (dict F)) tcdict outs dist :
  (forall o, In o (keys outs) -> o <> "" -> dict_mem tcdict o = true ->
             rec o <> Raise RecursionError) ->
  leaf_loop_pure rec tcdict outs dist <> Raise RecursionError.
Proof.
  revert dist. induction outs as [|[o p] outs IH]; simpl; intros dist Hrec.
  - discriminate.
  - assert (Htl : forall o', In o' (keys outs) -> o' <> "" ->
                     dict_mem tcdict o' = true -> rec o' <> Raise RecursionError)
      by (intros o' Ho'; apply Hrec; now right).
    destruct (String.eqb o "") eqn:Eo; [auto|].
    destruct (dict_mem tcdict o) eqn:Hm; [|auto].
    apply String.eqb_neq in Eo.
    specialize (Hrec o (or_introl eq_refl) Eo Hm).
    destruct (rec o) as [sub|e]; simpl; [auto | congruence].
Qed.

(** The single-roll distribution involves no recursion. *)

Lemma raise_float_depth {A : Type} (r : A + float_error) :
  raise_float r <> Raise RecursionError.
Proof. destruct r as [a|[]]; discriminate. Qed.

Lemma py_int_depth s : py_int s <> Raise RecursionError.
Proof. unfold py_int. destruct (parse_int s); discriminate. Qed.

Lemma listed_loop_depth row cells acc :
  listed_loop row cells acc <> Raise RecursionError.
Proof.
  revert acc. induction cells as [|[k v] cells IH]; simpl; intros acc.
  - discriminate.
  - destruct (startswith k "Item" && truthy v)%bool; [|apply IH].
    unfold getitem. destruct (dict_get row _) as [cell|]; simpl; [|discriminate].
    pose proof (py_int_depth cell) as H.
    destruct (py_int cell); simpl; [apply IH | same_exn].
Qed.

Lemma py_div_depth (x y : F) : py_div x y <> Raise RecursionError.
Proof. unfold py_div. destruct (fis_zero y); discriminate. Qed.

Lemma nodrop_adjusted_weight_depth raw s players :
  nodrop_adjusted_weight raw s players <> Raise RecursionError.
Proof.
  unfold nodrop_adjusted_weight, nodrop_ratio, nodrop_final, nd_exp, py_truediv.
  match goal with |- context [raise_float ?r] =>
    pose proof (raise_float_depth r); destruct (raise_float r) end; simpl;
    [|same_exn].
  destruct (raw + s =? 0); simpl; [discriminate|].
  match goal with |- context [raise_float ?r] =>
    pose proof (raise_float_depth r); destruct (raise_float r) end; simpl;
    [|same_exn].
  match goal with |- context [py_div ?x ?y] =>
    pose proof (py_div_depth x y); destruct (py_div x y) end; simpl;
    [|same_exn].
  apply raise_float_depth.
Qed.

Lemma normalise_depth entries total (acc : dict F) :
  normalise entries total acc <> Raise RecursionError.
Proof.
  revert acc. induction entries as [|[it w] entries IH]; simpl; intros acc.
  - discriminate.
  - pose proof (py_div_depth (of_int w) total).
    destruct (py_div (of_int w) total); simpl; [apply IH | same_exn].
Qed.

Lemma outcome_probs_depth tc tcdict players :
  outcome_probs tc tcdict players <> Raise RecursionError.
Proof.
  unfold outcome_probs, getitem.
  destruct (dict_get tcdict tc) as [row|]; simpl; [|discriminate].
  pose proof (listed_loop_depth row row []) as Hl. fold (listed_outcomes row) in Hl.
  destruct (listed_outcomes row) as [listed|]; simpl; [|same_exn].
  assert (Hn : with_nodrop row listed players <> Raise RecursionError).
  { unfold with_nodrop.
    destruct (dict_get row "NoDrop") as [v|]; [destruct (truthy v)|]; try discriminate.
    pose proof (py_int_depth v). destruct (py_int v) as [raw|]; simpl; [|same_exn].
    pose proof (nodrop_adjusted_weight_depth raw (sum_weights listed) players).
    destruct (nodrop_adjusted_weight _ _ _); simpl; [discriminate | same_exn]. }
  destruct (with_nodrop row listed players); simpl; [|same_exn].
  apply normalise_depth.
Qed.

Lemma ranked_depth tcdict players (rank : string -> nat) :
  (forall tc o, refers tcdict tc o -> (rank o < rank tc)%nat) ->
  forall depth tc, (rank tc < depth)%nat ->
    leaf_dist_pure depth tc tcdict players <> Raise RecursionError.
Proof.
  intros Hrank. induction depth as [|depth IH]; intros tc Hlt; [lia|].
  rewrite leaf_dist_pure_unfold.
  destruct (String.eqb tc ""); [discriminate|].
  destruct (negb (dict_mem tcdict tc)); [discriminate|].
  pose proof (outcome_probs_depth tc tcdict players) as Hd.
  destruct (outcome_probs tc tcdict players) as [outs|e] eqn:Eo; simpl; [|exact Hd].
  apply leaf_loop_pure_total. intros o Hin Hne Hmem. apply IH.
  destruct (outcome_probs_keys _ _ _ _ _ Eo Hin) as [-> | (row & listed & w & H)];
    [congruence|].
  assert (rank o < rank tc)%nat; [|lia].
  apply Hrank. exists row, listed, w. tauto.
Qed.
End Depth.

Section MemoIndependence.
Context {F : Type} {PF : PyFloat F}.

(** C10: on an acyclic table, from some depth on, [leaf_dist] returns one and
    the same result (a distribution, or the error of a malformed row; never
    a depth overrun) whether it is the unmemoised recursion, the memoised
    function started on an empty memo, or the memoised function started on a
    memo left behind by earlier [leaf_dist] calls on the table, for any nodes
    and player counts. *)
Theorem leaf_dist_memo_independent tcdict tc players (memo : Memo) :
  acyclic tcdict ->
  populated tcdict memo ->
  exists depth0 r,
    r <> Raise RecursionError /\
    forall depth, (depth0 <= depth)%nat ->
      leaf_dist_pure depth tc tcdict players = r /\
      fst (leaf_dist depth tc tcdict players []) = r /\
      fst (leaf_dist depth tc tcdict players memo) = r.
Proof.
  intros [rank Hrank] Hpop.
  exists (S (rank tc)), (leaf_dist_pure (S (rank tc)) tc tcdict players).
  pose proof (ranked_depth tcdict players rank Hrank (S (rank tc)) tc
                (Nat.lt_succ_diag_r _)) as Hne.
  split; [exact Hne|]. intros depth Hle.
  pose proof (leaf_dist_pure_le tcdict players _ depth tc _ Hle eq_refl Hne) as Hp.
  split; [exact Hp|].
  assert (Hne' : leaf_dist_pure depth tc tcdict players <> Raise RecursionError)
    by now rewrite Hp.
  split.
  - destruct (leaf_dist_sound tcdict players depth tc [] (memo_valid_empty tcdict))
      as (_ & _ & Ha).
    now rewrite Ha.
  - destruct (leaf_dist_sound tcdict players depth tc memo (populated_valid _ _ Hpop))
      as (_ & _ & Ha).
    now rewrite Ha.
Qed.
End MemoIndependence.

(** In binary64, on the fixture: the result for [Boss] with one player does
    not depend on a memo filled by resolving [Duriel] for one player and
    [Boss] for eight. *)
Lemma leaf_dist_memo_independent_witness :
  exists depth0 r,
    r <> Raise RecursionError /\
    forall depth, (depth0 <= depth)%nat ->
      leaf_dist_pure (F := float) depth "Boss" fixture 1 = r /\
      fst (leaf_dist depth "Boss" fixture 1 []) = r /\
      fst (leaf_dist depth "Boss" fixture 1
             (snd (leaf_dist 4 "Boss" fixture 8
                     (snd (leaf_dist 4 "Duriel" fixture 1 []))))) = r.
Proof.
  apply (leaf_dist_memo_independent (F := float) fixture "Boss" 1).
  - apply (ranked_by_acyclic fixture_rank). vm_compute. reflexivity.
  - do 2 apply populated_call. apply populated_empty.
Defined.

(** ** Negative Picks (lines 136-154) *)

Lemma rollseq_of_repeat_sequence listed : rollseq_of listed = repeat_sequence listed.
Proof.
  unfold repeat_sequence. induction listed as [|[tc n] listed IH]; simpl; congruence.
Qed.


Lemma In_firstn {A : Type} (x : A) (n : nat) (l : list A) :
  In x (firstn n l) -> In x l.
Proof.
  revert l. induction n as [|n IH]; intros [|y l]; simpl; try tauto.
  intros [-> | H]; auto.
Qed.

Lemma repeat_sequence_listed listed entry :
  In entry (repeat_sequence listed) -> exists w, In (entry, w) listed.
Proof.
  unfold repeat_sequence. rewrite in_flat_map. intros ([o w] & Hin & Hrep).
  apply repeat_spec in Hrep. simpl in Hrep. subst. eauto.
Qed.

Lemma picks_of_depth row : picks_of row <> Raise RecursionError.
Proof.
  unfold picks_of. destruct (dict_get row "Picks") as [v|]; [|discriminate].
  destruct (truthy v); [apply py_int_depth | discriminate].
Qed.

Section NegativePicks.
Context {F : Type} {PF : PyFloat F}.

Lemma add_rolls_accumulate n (ld out : dict F) :
  add_rolls n ld out = accumulate out (contribution n ld).
Proof.
  unfold accumulate, contribution. revert out.
  induction ld as [|[leaf p] ld IH]; simpl; intros out; auto.
Qed.

Lemma rolls_loop_sound tcdict players depth rollseq :
  forall (out : dict F) memo,
    memo_valid tcdict memo ->
    deterministic_counts depth tcdict players rollseq out <> Raise RecursionError ->
    fst (rolls_loop depth tcdict players rollseq out memo)
    = deterministic_counts depth tcdict players rollseq out.
Proof.
  induction rollseq as [|tc rollseq IH]; simpl; intros out memo Hv Hne; auto.
  unfold own_picks in *.
  destruct (match dict_get tcdict tc with Some row => picks_of row | None => Ok 1 end)
    as [inner|e]; simpl in *; auto.
  destruct (leaf_dist_sound tcdict players depth tc memo Hv) as (Hv' & _ & Ha).
  destruct (leaf_dist_pure depth tc tcdict players) as [ld|e] eqn:Ep; simpl in *.
  - destruct (leaf_dist depth tc tcdict players memo) as [r memo'].
    simpl in Ha, Hv'. rewrite Ha by discriminate.
    rewrite add_rolls_accumulate. now apply IH.
  - destruct (leaf_dist depth tc tcdict players memo) as [r memo'].
    simpl in Ha. now rewrite Ha.
Qed.

Lemma deterministic_counts_depth tcdict players depth entries :
  (forall entry, In entry entries ->
     leaf_dist_pure depth entry tcdict players <> Raise RecursionError) ->
  forall out : dict F,
    deterministic_counts depth tcdict players entries out <> Raise RecursionError.
Proof.
  induction entries as [|entry entries IH]; simpl; intros Hall out; [discriminate|].
  assert (Hp : own_picks tcdict entry <> Raise RecursionError).
  { unfold own_picks. destruct (dict_get tcdict entry);
      [apply picks_of_depth | discriminate]. }
  destruct (own_picks tcdict entry); simpl; [|same_exn].
  pose proof (Hall entry (or_introl eq_refl)) as He.
  destruct (leaf_dist_pure depth entry tcdict players); simpl; [|exact He].
  apply IH. intros e' He'. apply Hall. now right.
Qed.

(** A name that is no row resolves at once. *)
Lemma leaf_dist_pure_leaf tcdict players depth tc :
  dict_mem tcdict tc = false ->
  leaf_dist_pure (F := F) (S depth) tc tcdict players <> Raise RecursionError.
Proof.
  intros Hm. rewrite leaf_dist_pure_unfold, Hm. simpl.
  destruct (String.eqb tc ""); discriminate.
Qed.

End NegativePicks.


(** ** Unknown identifiers (lines 78-81 and 116-118) *)

Section Lookup.
Context {F : Type} {PF : PyFloat F}.

(** C8, as the code has it: an unknown root identifier is a fatal lookup
    failure (the [KeyError] of [tcdict[root_tc]]), whereas a referenced
    identifier that is no row is taken for a terminal item code: the leaf
    resolver returns the distribution that gives it probability 1, and the
    memo is left alone. *)
Theorem unknown_root_raises_unknown_reference_is_leaf
    depth tcdict players root o (memo : Memo) :
  dict_get tcdict root = None ->
  o <> "" ->
  dict_mem tcdict o = false ->
  expected_counts_per_kill (F := F) depth root tcdict players = Raise (KeyError root) /\
  leaf_dist (S depth) o tcdict players memo = (Ok [(o, of_int 1)], memo).
Proof.
  intros Hroot Ho Hmem. split.
  - unfold expected_counts_per_kill, effective_picks, declared_picks, getitem.
    now rewrite Hroot.
  - rewrite leaf_dist_unfold, Hmem. simpl.
    apply String.eqb_neq in Ho. now rewrite Ho.
Qed.
End Lookup.

Lemma unknown_root_raises_unknown_reference_is_leaf_witness :
  expected_counts_per_kill (F := float) 2 "Izual" fixture 1 = Raise (KeyError "Izual") /\
  leaf_dist (F := float) 3 "Nowhere" fixture 1 [] = (Ok [("Nowhere", 1%float)], []).
Proof.
  exact (unknown_root_raises_unknown_reference_is_leaf (F := float) 2 fixture 1
           "Izual" "Nowhere" [] eq_refl ltac:(discriminate) eq_refl).
Defined.

(** C8 as stated fails: the row [Stray] refers to [Nowhere], which is no
    row; its evaluation goes through and counts [Nowhere] as an item. *)
Lemma unknown_reference_counterexample :
  dict_mem fixture "Nowhere" = false /\
  expected_counts_per_kill (F := float) 3 "Stray" fixture 1
  = Ok [("Nowhere", 1%float)].
Proof. split; vm_compute; reflexivity. Qed.

(** ** The no-drop adjustment (lines 49-55) *)

Lemma clamp_players_cases players :
  let p := clamp_players players in
  p = 1 \/ p = 2 \/ p = 3 \/ p = 4 \/ p = 5 \/ p = 6 \/ p = 7 \/ p = 8.
Proof. unfold clamp_players. lia. Qed.

(** [int(float(players) / 2.0 + 0.5)] truncates: 1, 1, 2, 2, 3, 3, 4, 4. *)
Lemma nd_exp_b64 players :
  nd_exp (F := float) players = Ok ((clamp_players players + 1) / 2).
Proof.
  unfold nd_exp.
  destruct (clamp_players_cases players) as [H|[H|[H|[H|[H|[H|[H|H]]]]]]];
    rewrite H; vm_compute; reflexivity.
Qed.

Lemma nd_exp_exact players :
  nd_exp (F := Q) players = Ok ((clamp_players players + 1) / 2).
Proof.
  unfold nd_exp.
  destruct (clamp_players_cases players) as [H|[H|[H|[H|[H|[H|[H|H]]]]]]];
    rewrite H; vm_compute; reflexivity.
Qed.

Lemma nodrop_adjusted_weight_formula {F : Type} {PF : PyFloat F} raw s players e :
  nd_exp (F := F) players = Ok e ->
  nodrop_adjusted_weight (F := F) raw s players = adjusted_weight_formula e raw s.
Proof.
  intros He. unfold nodrop_adjusted_weight, nodrop_ratio, nodrop_final,
    adjusted_weight_formula.
  rewrite He. simpl.
  destruct (py_truediv raw (raw + s)) as [base|]; simpl; auto.
Qed.

(** C4, as the code has it: the adjusted no-drop weight is
    [round((ratio / (1 - ratio)) * s)] with [ratio = (raw / (raw + s)) ** e],
    where the exponent [e] is [p/2 + 0.5] truncated by [int()], that is
    [(p + 1) / 2] rounded down, for the clamped player count [p]; in binary64
    and in exact arithmetic alike, errors included. *)
Theorem nodrop_adjusted_weight_closed_form raw s players :
  nodrop_adjusted_weight (F := float) raw s players
    = adjusted_weight_formula (F := float) ((clamp_players players + 1) / 2) raw s /\
  nodrop_adjusted_weight (F := Q) raw s players
    = adjusted_weight_formula (F := Q) ((clamp_players players + 1) / 2) raw s.
Proof.
  split; apply nodrop_adjusted_weight_formula; [apply nd_exp_b64 | apply nd_exp_exact].
Qed.

(** C4 as stated fails for two players: [2/2 + 0.5 = 1.5] rounds to 2 but is
    truncated to 1 by the code; with raw weight 1 and listed sum 3 the code
    returns 1 where the stated formula gives 0. *)
Lemma rounded_exponent_counterexample :
  nodrop_adjusted_weight (F := float) 1 3 2 = Ok 1 /\
  claimed_adjusted_weight (F := float) 1 3 2 = Ok 0 /\
  nd_exp (F := float) 2 = Ok 1 /\
  rounded_exponent (F := float) 2 = Ok 2.
Proof. repeat split; vm_compute; reflexivity. Qed.

(** A ratio of exactly 1 makes the divisor [1 - ratio] zero. *)
Lemma nodrop_final_zero_divisor {F : Type} {PF : PyFloat F} (ratio : F) s :
  fis_zero (fsub (of_int 1) ratio) = true ->
  nodrop_final ratio s = Raise ZeroDivisionError.
Proof. intros H. unfold nodrop_final, py_div. now rewrite H. Qed.

(** C9, as the code has it: when the ratio [(raw / (raw + s)) ** e] of a
    row's no-drop adjustment is exactly 1, the adjustment and the row's
    distribution fail with Python's [ZeroDivisionError]; no weight is
    substituted.  The exception carries no datum of the program: the node
    identifier is not reported. *)
Theorem ratio_one_raises_zero_division tc tcdict players row listed v raw :
  dict_get tcdict tc = Some row ->
  listed_outcomes row = Ok listed ->
  dict_get row "NoDrop" = Some v ->
  truthy v = true ->
  py_int v = Ok raw ->
  nodrop_ratio (F := float) raw (sum_weights listed) players = Ok 1%float ->
  nodrop_adjusted_weight (F := float) raw (sum_weights listed) players
    = Raise ZeroDivisionError /\
  outcome_probs (F := float) tc tcdict players = Raise ZeroDivisionError /\
  exn_arg ZeroDivisionError = None.
Proof.
  intros Hrow Hl Hnd Hv Hraw Hratio.
  assert (Hw : nodrop_adjusted_weight (F := float) raw (sum_weights listed) players
               = Raise ZeroDivisionError).
  { unfold nodrop_adjusted_weight. rewrite Hratio. simpl.
    apply nodrop_final_zero_divisor. vm_compute. reflexivity. }
  split; [exact Hw|]. split; [|reflexivity].
  unfold outcome_probs, getitem. rewrite Hrow. simpl. rewrite Hl. simpl.
  unfold with_nodrop. rewrite Hnd, Hv, Hraw. simpl. now rewrite Hw.
Qed.

(** The row [Void] of the fixture: raw no-drop weight 1, listed weights
    summing to 0. *)
Lemma ratio_one_raises_zero_division_witness :
  nodrop_adjusted_weight (F := float) 1 0 1 = Raise ZeroDivisionError /\
  outcome_probs (F := float) "Void" fixture 1 = Raise ZeroDivisionError /\
  exn_arg ZeroDivisionError = None.
Proof.
  apply (ratio_one_raises_zero_division "Void" fixture 1
           [("Treasure Class", "Void"); ("Picks", "1"); ("NoDrop", "1");
            ("Item1", "amu"); ("Prob1", "0")]
           [("amu", 0)] "1" 1); reflexivity.
Defined.

(** The same in exact arithmetic, where the ratio is 1 up to the
    representation of the fraction. *)
Lemma ratio_one_raises_zero_division_exact raw s players (ratio : Q) :
  nodrop_ratio (F := Q) raw s players = Ok ratio ->
  (ratio == 1)%Q ->
  nodrop_adjusted_weight (F := Q) raw s players = Raise ZeroDivisionError.
Proof.
  intros Hr H1. unfold nodrop_adjusted_weight. rewrite Hr. simpl.
  apply nodrop_final_zero_divisor.
  change (Z.eqb (Qnum (inject_Z 1 - ratio)%Q) 0 = true).
  apply Z.eqb_eq. unfold Qeq in H1. destruct ratio as [n d].
  unfold Qminus, Qplus, Qopp, inject_Z in *. cbn [Qnum Qden] in *. lia.
Qed.

(** C9 as stated fails: evaluating the boss [Void] ends in a
    [ZeroDivisionError], which does not report the node. *)
Lemma zero_division_counterexample :
  nodrop_ratio (F := float) 1 0 1 = Ok 1%float /\
  expected_counts_per_kill (F := float) 3 "Void" fixture 1 = Raise ZeroDivisionError /\
  ~ (forall e, expected_counts_per_kill (F := float) 3 "Void" fixture 1 = Raise e ->
               exn_arg e = Some "Void").
Proof.
  split; [vm_compute; reflexivity|].
  assert (H : expected_counts_per_kill (F := float) 3 "Void" fixture 1
              = Raise ZeroDivisionError) by (vm_compute; reflexivity).
  split; [exact H|].
  intros Hall. specialize (Hall _ H). discriminate.
Qed.

(** ** Exact arithmetic: rounding and powers *)

Section Exact.
Local Open Scope Q_scope.
















End Exact.




(** ** Exact arithmetic: total mass *)

Section Mass.
Local Open Scope Q_scope.
Implicit Types d : dict Q.

Lemma fold_plus_acc (l : list Q) a : fold_left Qplus l a == a + fold_left Qplus l 0.
Proof.
  revert a. induction l as [|x l IH]; simpl; intros a.
  - lra.
  - rewrite (IH (a + x)), (IH (0 + x)). lra.
Qed.

Lemma total_mass_nil : total_mass (F := Q) [] == 0.
Proof. reflexivity. Qed.

Lemma total_mass_cons k v d : total_mass ((k, v) :: d) == v + total_mass d.
Proof.
  unfold total_mass. simpl. change (inject_Z 0) with 0.
  rewrite fold_plus_acc. lra.
Qed.

Lemma total_mass_app d d' : total_mass (d ++ d')%list == total_mass d + total_mass d'.
Proof.
  induction d as [|[k v] d IH]; simpl.
  - rewrite total_mass_nil. lra.
  - rewrite !total_mass_cons, IH. lra.
Qed.



End Mass.

(** ** The single-roll distribution (lines 58-73) *)

Lemma fold_add_acc (l : list Z) a : fold_left Z.add l a = a + fold_left Z.add l 0.
Proof.
  revert a. induction l as [|x l IH]; simpl; intros a; [lia|].
  rewrite (IH (a + x)), (IH x). lia.
Qed.

Lemma sum_weights_cons e l : sum_weights (e :: l) = snd e + sum_weights l.
Proof. unfold sum_weights. simpl. now rewrite fold_add_acc. Qed.


Lemma sum_weights_nonneg l : (forall o w, In (o, w) l -> 0 <= w) -> 0 <= sum_weights l.
Proof.
  induction l as [|[o w] l IH]; intros H.
  - now compute.
  - rewrite sum_weights_cons. simpl.
    pose proof (H o w (or_introl eq_refl)).
    assert (0 <= sum_weights l) by (apply IH; intros o' w' Hin; apply (H o'); now right).
    lia.
Qed.






Section Shares.
Local Open Scope Q_scope.


End Shares.





(** ** Exact arithmetic: the leaf resolver (lines 76-97) *)

Section LeafMass.
Local Open Scope Q_scope.








End LeafMass.

Section LeafBounds.
Local Open Scope Q_scope.





End LeafBounds.









(** * Further properties of the engine *)

(** ** What a leaf distribution holds *)

Section LeafKeys.
Context {F : Type} {PF : PyFloat F}.

Lemma add_scaled_keys p (sub dist : dict F) k :
  In k (keys (add_scaled p sub dist)) -> In k (keys dist) \/ In k (keys sub).
Proof.
  revert dist. induction sub as [|[k' v] sub IH]; simpl; intros dist H; auto.
  apply IH in H. destruct H as [H | H]; auto.
  unfold dict_add in H. apply In_keys_set in H. destruct H as [-> | H]; auto.
Qed.

Lemma leaf_loop_pure_keys (rec : string -> result (dict F)) tcdict outs :
  (forall o sub, rec o = Ok sub -> forall k, In k (keys sub) -> terminal tcdict k) ->
  forall dist d,
    (forall k, In k (keys dist) -> terminal tcdict k) ->
    NoDup (keys dist) ->
    leaf_loop_pure rec tcdict outs dist = Ok d ->
    NoDup (keys d) /\ forall k, In k (keys d) -> terminal tcdict k.
Proof.
  intros Hrec. induction outs as [|[o p] outs IH]; simpl; intros dist d Hk Hnd H.
  - injection H as <-. auto.
  - destruct (String.eqb o "") eqn:Eo; [eauto|].
    apply String.eqb_neq in Eo.
    destruct (dict_mem tcdict o) eqn:Em.
    + destruct (rec o) as [sub|] eqn:Es; simpl in H; [|discriminate].
      apply (IH _ _) in H; auto using add_scaled_nodup.
      intros k Hin. apply add_scaled_keys in Hin. destruct Hin; eauto.
    + apply (IH _ _) in H; auto using dict_add_nodup.
      intros k Hin. unfold dict_add in Hin. apply In_keys_set in Hin.
      destruct Hin as [-> | Hin]; [split|]; auto.
Qed.

Lemma leaf_dist_pure_keys tcdict players depth :
  forall tc d,
    leaf_dist_pure (F := F) depth tc tcdict players = Ok d ->
    NoDup (keys d) /\ forall k, In k (keys d) -> terminal tcdict k.
Proof.
  induction depth as [|depth IH]; intros tc d H; [discriminate|].
  rewrite leaf_dist_pure_unfold in H.
  destruct (String.eqb tc "") eqn:Etc.
  { injection H as <-. split; [constructor | intros k []]. }
  apply String.eqb_neq in Etc.
  destruct (dict_mem tcdict tc) eqn:Em; simpl in H.
  - destruct (outcome_probs tc tcdict players) as [outs|]; simpl in H; [|discriminate].
    eapply leaf_loop_pure_keys; [| | | exact H].
    + intros o sub Hs. now apply (IH o sub).
    + intros k [].
    + constructor.
  - injection H as <-. split.
    + constructor; [simpl; tauto | constructor].
    + intros k [<- | []]. now split.
Qed.

(** X1: a distribution returned by [leaf_dist] is keyed by terminal item
    codes only: no key is empty, none is a row of the table, and none occurs
    twice.  This holds on any memo left behind by earlier calls. *)
Theorem leaf_dist_keys_are_terminal depth tc tcdict players (memo : Memo) d :
  populated tcdict memo ->
  fst (leaf_dist depth tc tcdict players memo) = Ok d ->
  NoDup (keys d) /\ forall k, In k (keys d) -> k <> "" /\ dict_mem tcdict k = false.
Proof.
  intros Hpop Hd.
  destruct (leaf_dist_sound tcdict players depth tc memo (populated_valid _ _ Hpop))
    as (_ & Hpure & _).
  destruct (Hpure d Hd) as [D HD].
  exact (leaf_dist_pure_keys tcdict players D tc d HD).
Qed.
End LeafKeys.

Lemma leaf_dist_keys_are_terminal_witness :
  NoDup (keys [("r01", 0.44999999999999996%float); ("r02", 0.14999999999999999%float);
               ("gem", 0.20000000000000001%float)]) /\
  forall k, In k (keys [("r01", 0.44999999999999996%float);
                        ("r02", 0.14999999999999999%float);
                        ("gem", 0.20000000000000001%float)]) ->
            k <> "" /\ dict_mem fixture k = false.
Proof.
  apply (leaf_dist_keys_are_terminal (F := float) 3 "Boss" fixture 1 []).
  - apply populated_empty.
  - vm_compute. reflexivity.
Defined.

(** ** The memo only grows *)

Section MemoGrows.
Context {F : Type} {PF : PyFloat F}.

Lemma leaf_loop_keeps tcdict (rec : string -> Memo -> result (dict F) * Memo) :
  (forall o memo, keeps memo (snd (rec o memo))) ->
  forall outs dist memo, keeps memo (snd (leaf_loop rec tcdict outs dist memo)).
Proof.
  intros Hrec. induction outs as [|[o p] outs IH]; simpl; intros dist memo.
  - intros key d H. exact H.
  - destruct (String.eqb o ""); [apply IH|].
    destruct (dict_mem tcdict o); [|apply IH].
    pose proof (Hrec o memo) as Hk.
    destruct (rec o memo) as [[sub|e] memo']; simpl in *; auto.
    intros key d H. apply IH. auto.
Qed.

(** X2: a call of [leaf_dist] never drops or overwrites an entry the memo
    already holds, whatever the table (cyclic ones included), the depth and
    the outcome of the call. *)
Theorem leaf_dist_keeps_memo_entries depth tc tcdict players (memo : Memo) key d :
  dict_get memo key = Some d ->
  dict_get (snd (leaf_dist depth tc tcdict players memo)) key = Some d.
Proof.
  revert tc memo key d.
  induction depth as [|depth IH]; intros tc memo key d H; [exact H|].
  rewrite leaf_dist_unfold.
  destruct (String.eqb tc ""); [exact H|].
  destruct (negb (dict_mem tcdict tc)); [exact H|].
  destruct (dict_get memo (memo_key tc players)) eqn:Ehit; [exact H|].
  destruct (outcome_probs tc tcdict players) as [outs|]; [|exact H].
  pose proof (leaf_loop_keeps tcdict _ (fun o m => IH o m) outs [] memo key d H) as Hk.
  destruct (leaf_loop _ tcdict outs [] memo) as [[dist|e] memo']; simpl in *; auto.
  rewrite dict_get_set_other; auto.
  intros <-. congruence.
Qed.
End MemoGrows.

Lemma leaf_dist_keeps_memo_entries_witness :
  dict_get (snd (leaf_dist (F := float) 3 "Boss" fixture 1
                   [("Runes::p1", [("r01", 0.75%float); ("r02", 0.25%float)])]))
           "Runes::p1"
  = Some [("r01", 0.75%float); ("r02", 0.25%float)].
Proof.
  apply (leaf_dist_keeps_memo_entries (F := float) 3 "Boss" fixture 1). reflexivity.
Defined.

(** ** The pick aggregators and the memo *)

Section PickMemo.
Context {F : Type} {PF : PyFloat F}.

Lemma own_picks_depth tcdict entry : own_picks tcdict entry <> Raise RecursionError.
Proof.
  unfold own_picks. destruct (dict_get tcdict entry);
    [apply picks_of_depth | discriminate].
Qed.

Lemma one_pick_loop_sound tcdict players depth outs :
  forall (out : dict F) memo,
    memo_valid tcdict memo ->
    memo_valid tcdict (snd (one_pick_loop depth tcdict players outs out memo)) /\
    (one_pick_loop_pure depth tcdict players outs out <> Raise RecursionError ->
     fst (one_pick_loop depth tcdict players outs out memo)
     = one_pick_loop_pure depth tcdict players outs out).
Proof.
  induction outs as [|[tc1 p1] outs IH]; simpl; intros out memo Hv; auto.
  destruct (String.eqb tc1 ""); [now apply IH|].
  destruct (dict_get tcdict tc1) as [row1|]; [|now apply IH].
  destruct (picks_of row1) as [inner|e]; simpl; [|auto].
  destruct (leaf_dist_sound tcdict players depth tc1 memo Hv) as (Hv' & _ & Ha).
  destruct (leaf_dist depth tc1 tcdict players memo) as [r memo']. simpl in Ha, Hv'.
  destruct (leaf_dist_pure depth tc1 tcdict players) as [ld|e] eqn:Ep; simpl.
  - destruct r as [ld'|e'].
    + destruct (IH (add_counts p1 inner ld' out) memo' Hv') as [Hv2 Hs].
      split; [exact Hv2|]. intros Hne.
      assert (E : Ok ld' = Ok ld) by (apply Ha; discriminate).
      injection E as ->. now apply Hs.
    + split; [exact Hv'|]. intros _.
      assert (E : Raise e' = Ok ld) by (apply Ha; discriminate). discriminate.
  - destruct r as [ld'|e'].
    + destruct (IH (add_counts p1 inner ld' out) memo' Hv') as [Hv2 _].
      split; [exact Hv2|]. intros Hne.
      assert (E : Ok ld' = Raise e) by (apply Ha; exact Hne). discriminate.
    + split; [exact Hv'|]. intros Hne. simpl. now apply Ha.
Qed.

Lemma one_pick_sound tcdict players depth root (memo : Memo) :
  memo_valid tcdict memo ->
  memo_valid tcdict (snd (expected_counts_for_one_pick depth root tcdict players memo)) /\
  (one_pick_pure depth root tcdict players <> Raise RecursionError ->
   fst (expected_counts_for_one_pick depth root tcdict players memo)
   = one_pick_pure depth root tcdict players).
Proof.
  intros Hv. unfold expected_counts_for_one_pick, one_pick_pure.
  destruct (outcome_probs root tcdict players) as [outs|e]; simpl.
  - now apply one_pick_loop_sound.
  - auto.
Qed.

Lemma one_pick_loop_pure_depth tcdict players depth outs :
  (forall o, In o (keys outs) -> o <> "" -> dict_mem tcdict o = true ->
     leaf_dist_pure (F := F) depth o tcdict players <> Raise RecursionError) ->
  forall out : dict F,
    one_pick_loop_pure depth tcdict players outs out <> Raise RecursionError.
Proof.
  induction outs as [|[tc1 p1] outs IH]; simpl; intros Hall out; [discriminate|].
  assert (Htl : forall o, In o (keys outs) -> o <> "" -> dict_mem tcdict o = true ->
            leaf_dist_pure (F := F) depth o tcdict players <> Raise RecursionError)
    by (intros o Ho; apply Hall; now right).
  destruct (String.eqb tc1 "") eqn:E1; [now apply IH|].
  apply String.eqb_neq in E1.
  destruct (dict_get tcdict tc1) as [row1|] eqn:Hrow; [|now apply IH].
  pose proof (picks_of_depth row1) as Hp.
  destruct (picks_of row1); simpl; [|same_exn].
  assert (Hm : dict_mem tcdict tc1 = true) by (unfold dict_mem; now rewrite Hrow).
  pose proof (Hall tc1 (or_introl eq_refl) E1 Hm) as Hl.
  destruct (leaf_dist_pure depth tc1 tcdict players); simpl; [now apply IH | exact Hl].
Qed.

Lemma one_pick_pure_depth tcdict players (rank : string -> nat) root depth :
  (forall tc o, refers tcdict tc o -> (rank o < rank tc)%nat) ->
  (rank root < depth)%nat ->
  one_pick_pure (F := F) depth root tcdict players <> Raise RecursionError.
Proof.
  intros Hrank Hlt. unfold one_pick_pure.
  pose proof (outcome_probs_depth (F := F) root tcdict players) as Hd.
  destruct (outcome_probs root tcdict players) as [outs|e] eqn:Eo; simpl; [|exact Hd].
  apply one_pick_loop_pure_depth. intros o Hin Hne Hmem.
  apply (ranked_depth tcdict players rank Hrank).
  destruct (outcome_probs_keys _ _ _ _ _ Eo Hin) as [-> | (row & listed & w & H)];
    [congruence|].
  assert (rank o < rank root)%nat; [|lia].
  apply Hrank. exists row, listed, w. tauto.
Qed.
End PickMemo.

Section PerKillMemo.
Context {F : Type} {PF : PyFloat F}.

Lemma per_kill_eq_pure depth root tcdict players :
  per_kill_pure (F := F) depth root tcdict players <> Raise RecursionError ->
  expected_counts_per_kill depth root tcdict players
  = per_kill_pure depth root tcdict players.
Proof.
  unfold expected_counts_per_kill, per_kill_pure.
  destruct (effective_picks root tcdict) as [picks|e]; simpl; auto.
  destruct (picks <? 0).
  - unfold negative_picks.
    destruct (getitem tcdict root) as [row|]; simpl; auto.
    destruct (listed_outcomes row) as [pairs|]; simpl; auto.
    intros Hne. apply rolls_loop_sound; [apply memo_valid_empty | exact Hne].
  - intros Hne.
    destruct (one_pick_sound tcdict players depth root [] (memo_valid_empty tcdict))
      as [_ Hs].
    rewrite Hs; [reflexivity|].
    destruct (one_pick_pure depth root tcdict players); [discriminate | exact Hne].
Qed.

Lemma per_kill_pure_depth tcdict players (rank : string -> nat) root depth :
  (forall tc o, refers tcdict tc o -> (rank o < rank tc)%nat) ->
  (rank root < depth)%nat ->
  per_kill_pure (F := F) depth root tcdict players <> Raise RecursionError.
Proof.
  intros Hrank Hlt. unfold per_kill_pure.
  assert (He : effective_picks root tcdict <> Raise RecursionError).
  { unfold effective_picks, declared_picks, getitem.
    destruct (dict_get tcdict root) as [row|]; simpl; [|discriminate].
    pose proof (picks_of_depth row) as Hp.
    destruct (picks_of row) as [k|]; simpl; [|same_exn].
    destruct (0 <? k); [|discriminate].
    destruct (startswith (item1_of row) "gld"); discriminate. }
  destruct (effective_picks root tcdict) as [picks|e]; simpl; [|same_exn].
  destruct (picks <? 0).
  - unfold getitem. destruct (dict_get tcdict root) as [row|] eqn:Hrow; simpl;
      [|discriminate].
    pose proof (listed_loop_depth row row []) as Hl. fold (listed_outcomes row) in Hl.
    destruct (listed_outcomes row) as [pairs|] eqn:Hp; simpl; [|same_exn].
    apply deterministic_counts_depth. intros entry Hin.
    apply In_firstn in Hin. rewrite rollseq_of_repeat_sequence in Hin.
    apply repeat_sequence_listed in Hin. destruct Hin as [w Hw].
    destruct (dict_mem tcdict entry) eqn:Hm.
    + apply (ranked_depth tcdict players rank Hrank).
      assert (rank entry < rank root)%nat; [|lia].
      apply Hrank. exists row, pairs, w. auto.
    + destruct depth; [lia|]. now apply leaf_dist_pure_leaf.
  - pose proof (one_pick_pure_depth (F := F) tcdict players rank root depth Hrank Hlt) as Ho.
    destruct (one_pick_pure depth root tcdict players); simpl; [discriminate | exact Ho].
Qed.

(** X3: [expected_counts_for_one_pick] may be handed a memo that earlier
    evaluations filled (other bosses, other player counts): as long as every
    entry holds what the unmemoised recursion returns, the counts are those
    computed with a fresh memo, and the memo handed back has the same
    property.  On an acyclic table, from some depth on, without running out
    of depth. *)
Theorem one_pick_memo_reuse tcdict root players (memo : Memo) :
  acyclic tcdict ->
  memo_valid tcdict memo ->
  exists depth0, forall depth, (depth0 <= depth)%nat ->
    fst (expected_counts_for_one_pick (F := F) depth root tcdict players memo)
      = fst (expected_counts_for_one_pick depth root tcdict players []) /\
    fst (expected_counts_for_one_pick (F := F) depth root tcdict players memo)
      <> Raise RecursionError /\
    memo_valid tcdict
      (snd (expected_counts_for_one_pick (F := F) depth root tcdict players memo)).
Proof.
  intros [rank Hrank] Hv. exists (S (rank root)). intros depth Hle.
  pose proof (one_pick_pure_depth (F := F) tcdict players rank root depth Hrank
                ltac:(lia)) as Hne.
  destruct (one_pick_sound tcdict players depth root memo Hv) as [Hv' Hs].
  destruct (one_pick_sound tcdict players depth root [] (memo_valid_empty tcdict))
    as [_ Hs0].
  rewrite (Hs Hne), (Hs0 Hne). auto.
Qed.
End PerKillMemo.

(** On the fixture: the memo left by evaluating [Duriel] for one player is
    handed to the evaluation of [Boss] for one player. *)
Lemma one_pick_memo_reuse_witness :
  exists depth0, forall depth, (depth0 <= depth)%nat ->
    fst (expected_counts_for_one_pick (F := float) depth "Boss" fixture 1
           (snd (leaf_dist 3 "Duriel" fixture 1 [])))
      = fst (expected_counts_for_one_pick depth "Boss" fixture 1 []) /\
    fst (expected_counts_for_one_pick (F := float) depth "Boss" fixture 1
           (snd (leaf_dist 3 "Duriel" fixture 1 [])))
      <> Raise RecursionError /\
    memo_valid fixture
      (snd (expected_counts_for_one_pick (F := float) depth "Boss" fixture 1
              (snd (leaf_dist 3 "Duriel" fixture 1 [])))).
Proof.
  apply (one_pick_memo_reuse (F := float) fixture "Boss" 1).
  - apply (ranked_by_acyclic fixture_rank). vm_compute. reflexivity.
  - apply populated_valid. apply populated_call. apply populated_empty.
Defined.

(** ** The player count is clamped *)

Section Clamp.
Context {F : Type} {PF : PyFloat F}.

Lemma clamp_players_idem players : clamp_players (clamp_players players) = clamp_players players.
Proof. unfold clamp_players. lia. Qed.

Lemma outcome_probs_clamp tc tcdict players :
  outcome_probs (F := F) tc tcdict (clamp_players players)
  = outcome_probs tc tcdict players.
Proof.
  unfold outcome_probs, with_nodrop, nodrop_adjusted_weight, nodrop_ratio, nd_exp.
  now rewrite clamp_players_idem.
Qed.

Lemma leaf_loop_pure_ext (rec rec' : string -> result (dict F)) tcdict outs dist :
  (forall o, rec o = rec' o) ->
  leaf_loop_pure rec tcdict outs dist = leaf_loop_pure rec' tcdict outs dist.
Proof.
  intros Hext. revert dist. induction outs as [|[o p] outs IH]; simpl; intros dist; auto.
  destruct (String.eqb o ""); auto.
  destruct (dict_mem tcdict o); auto.
  rewrite Hext. destruct (rec' o); simpl; auto.
Qed.

Lemma leaf_dist_pure_clamp tcdict players depth : forall tc,
  leaf_dist_pure (F := F) depth tc tcdict (clamp_players players)
  = leaf_dist_pure depth tc tcdict players.
Proof.
  induction depth as [|depth IH]; intros tc; [reflexivity|].
  rewrite !leaf_dist_pure_unfold, outcome_probs_clamp.
  destruct (String.eqb tc ""); auto.
  destruct (negb (dict_mem tcdict tc)); auto.
  destruct (outcome_probs tc tcdict players); simpl; auto.
  now apply leaf_loop_pure_ext.
Qed.

Lemma per_kill_pure_clamp tcdict players depth root :
  per_kill_pure (F := F) depth root tcdict (clamp_players players)
  = per_kill_pure depth root tcdict players.
Proof.
  unfold per_kill_pure, one_pick_pure. rewrite outcome_probs_clamp.
  destruct (effective_picks root tcdict) as [picks|]; simpl; auto.
  destruct (picks <? 0).
  - destruct (getitem tcdict root) as [row|]; simpl; auto.
    destruct (listed_outcomes row) as [pairs|]; simpl; auto.
    generalize (firstn (Z.to_nat (Z.abs picks)) (rollseq_of pairs)).
    generalize (@nil (string * F)).
    intros out entries. revert out.
    induction entries as [|entry entries IH]; simpl; intros out; auto.
    rewrite leaf_dist_pure_clamp.
    destruct (own_picks tcdict entry); simpl; auto.
    destruct (leaf_dist_pure depth entry tcdict players); simpl; auto.
  - destruct (outcome_probs root tcdict players) as [outs|]; simpl; auto.
    f_equal. generalize (@nil (string * F)). 
    induction outs as [|[tc1 p1] outs IH]; simpl; intros out; auto.
    destruct (String.eqb tc1 ""); auto.
    destruct (dict_get tcdict tc1) as [row1|]; auto.
    rewrite leaf_dist_pure_clamp.
    destruct (picks_of row1); simpl; auto.
    destruct (leaf_dist_pure depth tc1 tcdict players); simpl; auto.
Qed.

(** X4: the whole per-kill computation sees the player count only through
    its clamp to 1..8: a count of 0 or less gives the expected counts of one
    player, a count above 8 those of eight, although the memo keys spell the
    count as given.  On an acyclic table, from some depth on. *)
Theorem per_kill_clamps_players tcdict root players :
  acyclic tcdict ->
  exists depth0, forall depth, (depth0 <= depth)%nat ->
    expected_counts_per_kill (F := F) depth root tcdict players
    = expected_counts_per_kill depth root tcdict (Z.max 1 (Z.min 8 players)).
Proof.
  intros [rank Hrank]. exists (S (rank root)). intros depth Hle.
  fold (clamp_players players).
  rewrite !per_kill_eq_pure.
  - now rewrite per_kill_pure_clamp.
  - apply (per_kill_pure_depth tcdict _ rank); [exact Hrank | lia].
  - apply (per_kill_pure_depth tcdict _ rank); [exact Hrank | lia].
Qed.
End Clamp.

Lemma per_kill_clamps_players_witness :
  exists depth0, forall depth, (depth0 <= depth)%nat ->
    expected_counts_per_kill (F := float) depth "Boss" fixture 12
    = expected_counts_per_kill depth "Boss" fixture (Z.max 1 (Z.min 8 12)).
Proof.
  apply (per_kill_clamps_players (F := float) fixture "Boss" 12).
  apply (ranked_by_acyclic fixture_rank). vm_compute. reflexivity.
Defined.

(** ** What a per-kill report holds *)

Section ReportKeys.
Context {F : Type} {PF : PyFloat F}.

Lemma add_counts_keys p n (ld out : dict F) k :
  In k (keys (add_counts p n ld out)) -> In k (keys out) \/ In k (keys ld).
Proof.
  revert out. induction ld as [|[k' v] ld IH]; simpl; intros out H; auto.
  apply IH in H. destruct H as [H | H]; auto.
  unfold dict_add in H. apply In_keys_set in H. destruct H as [-> | H]; auto.
Qed.

Lemma add_rolls_keys n (ld out : dict F) k :
  In k (keys (add_rolls n ld out)) -> In k (keys out) \/ In k (keys ld).
Proof.
  revert out. induction ld as [|[k' v] ld IH]; simpl; intros out H; auto.
  apply IH in H. destruct H as [H | H]; auto.
  unfold dict_add in H. apply In_keys_set in H. destruct H as [-> | H]; auto.
Qed.

Lemma leaf_dist_terminal tcdict players depth tc (memo : Memo) ld memo' :
  memo_valid tcdict memo ->
  leaf_dist depth tc tcdict players memo = (Ok ld, memo') ->
  memo_valid tcdict memo' /\ forall k, In k (keys ld) -> terminal tcdict k.
Proof.
  intros Hv E.
  destruct (leaf_dist_sound tcdict players depth tc memo Hv) as (Hv' & Hp & _).
  rewrite E in Hv', Hp. simpl in *. split; [exact Hv'|].
  destruct (Hp ld eq_refl) as [D HD].
  apply (leaf_dist_pure_keys tcdict players D tc ld HD).
Qed.

Lemma one_pick_loop_keys tcdict players depth outs :
  forall (out : dict F) memo r memo',
    memo_valid tcdict memo ->
    (forall k, In k (keys out) -> terminal tcdict k) ->
    one_pick_loop depth tcdict players outs out memo = (Ok r, memo') ->
    forall k, In k (keys r) -> terminal tcdict k.
Proof.
  induction outs as [|[tc1 p1] outs IH]; simpl; intros out memo r memo' Hv Hk H.
  - now injection H as <- _.
  - destruct (String.eqb tc1 "") eqn:E1; [eauto|].
    apply String.eqb_neq in E1.
    destruct (dict_get tcdict tc1) as [row1|] eqn:Hrow.
    + destruct (picks_of row1) as [inner|]; [|discriminate].
      destruct (leaf_dist depth tc1 tcdict players memo) as [[ld|e] m] eqn:El;
        [|discriminate].
      destruct (leaf_dist_terminal _ _ _ _ _ _ _ Hv El) as [Hv' Hld].
      eapply IH; [exact Hv' | | exact H].
      intros k Hin. apply add_counts_keys in Hin. destruct Hin; auto.
    + eapply IH; [exact Hv | | exact H].
      intros k Hin. unfold dict_add in Hin. apply In_keys_set in Hin.
      destruct Hin as [-> | Hin]; auto.
      split; [exact E1 | unfold dict_mem; now rewrite Hrow].
Qed.

Lemma rolls_loop_keys tcdict players depth rollseq :
  forall (out : dict F) memo r memo',
    memo_valid tcdict memo ->
    NoDup (keys out) ->
    (forall k, In k (keys out) -> terminal tcdict k) ->
    rolls_loop depth tcdict players rollseq out memo = (Ok r, memo') ->
    NoDup (keys r) /\ forall k, In k (keys r) -> terminal tcdict k.
Proof.
  induction rollseq as [|tc rollseq IH]; simpl; intros out memo r memo' Hv Hnd Hk H.
  - injection H as <- _. auto.
  - destruct (match dict_get tcdict tc with Some row => picks_of row | None => Ok 1 end)
      as [inner|]; [|discriminate].
    destruct (leaf_dist depth tc tcdict players memo) as [[ld|e] m] eqn:El;
      [|discriminate].
    destruct (leaf_dist_terminal _ _ _ _ _ _ _ Hv El) as [Hv' Hld].
    eapply IH; [exact Hv' | | | exact H].
    + now apply add_rolls_nodup.
    + intros k Hin. apply add_rolls_keys in Hin. destruct Hin; auto.
Qed.

(** X5: a report of [expected_counts_per_kill] is keyed by terminal item
    codes only: it never lists the empty outcome or a treasure class, and it
    lists no code twice; for positive and for negative Picks, on any table. *)
Theorem per_kill_keys_are_terminal depth root tcdict players (d : dict F) :
  expected_counts_per_kill depth root tcdict players = Ok d ->
  NoDup (keys d) /\ forall k, In k (keys d) -> k <> "" /\ dict_mem tcdict k = false.
Proof.
  unfold expected_counts_per_kill.
  destruct (effective_picks root tcdict) as [picks|]; simpl; [|discriminate].
  destruct (picks <? 0).
  - unfold negative_picks.
    destruct (getitem tcdict root) as [row|]; simpl; [|discriminate].
    destruct (listed_outcomes row) as [pairs|]; simpl; [|discriminate].
    destruct (rolls_loop depth tcdict players _ [] []) as [r memo'] eqn:E.
    simpl. intros ->.
    apply (rolls_loop_keys _ _ _ _ _ _ _ _ (memo_valid_empty tcdict)) in E; auto.
    + constructor.
    + intros k [].
  - destruct (expected_counts_for_one_pick depth root tcdict players [])
      as [[one|e] memo'] eqn:E; simpl; [|discriminate].
    intros [= <-].
    pose proof (one_pick_nodup _ _ _ _ _ _ _ E) as Hnd.
    rewrite (dict_comp_map _ one Hnd).
    assert (Hkeys : keys (map (fun kv : string * F =>
                                 (fst kv, fmul (snd kv) (of_int picks))) one)
                    = keys one)
      by (unfold keys; rewrite map_map; reflexivity).
    rewrite Hkeys. split; [exact Hnd|].
    unfold expected_counts_for_one_pick in E.
    destruct (outcome_probs root tcdict players) as [outs|]; [|discriminate].
    eapply one_pick_loop_keys; [apply memo_valid_empty | | exact E].
    intros k [].
Qed.
End ReportKeys.

Lemma per_kill_keys_are_terminal_witness :
  NoDup (keys [("r01", 1.5%float); ("r02", 0.5%float); ("gem", 1%float)]) /\
  forall k, In k (keys [("r01", 1.5%float); ("r02", 0.5%float); ("gem", 1%float)]) ->
            k <> "" /\ dict_mem fixture k = false.
Proof.
  apply (per_kill_keys_are_terminal (F := float) 3 "Countess" fixture 1).
  vm_compute. reflexivity.
Defined.

(** * The economy classifier (lines 161-198) *)

Section Buckets.
Context {F : Type} {PF : PyFloat F}.

Lemma bucketize_loop_step code cnt (rest : dict F) names out :
  bucketize_loop ((code, cnt) :: rest) names out
  = bucketize_loop rest names
      (match bucket_of_code names code with
       | Some bucket => dict_add out bucket cnt
       | None => out
       end).
Proof.
  simpl. unfold bucket_of_code.
  destruct (truthy (display_name names code)); simpl; [|reflexivity].
  now destruct (bucket_of (display_name names code)).
Qed.

Lemma bucket_of_cases name b :
  bucket_of name = Some b ->
  In b ["UKEY"; "PA"; "PG"; "FA"; "FG"] \/
  (endswith name " Rune" = true /\ b = upper (str_replace name " Rune" "")).
Proof.
  unfold bucket_of.
  destruct (endswith name " Rune"); [intros [= <-]; auto|].
  destruct ((name =? "Key Of Terror") || (name =? "Key Of Hate")
            || (name =? "Key Of Destruction"))%string%bool;
    [intros [= <-]; left; simpl; tauto|].
  destruct (startswith name "Perfect ");
    [destruct (contains name "Amethyst"); intros [= <-]; left; simpl; tauto|].
  destruct (startswith name "Flawless ");
    [destruct (contains name "Amethyst"); intros [= <-]; left; simpl; tauto|].
  intros [=].
Qed.

Lemma bucketize_loop_keys (items : dict F) names : forall out b,
  In b (keys (bucketize_loop items names out)) ->
  In b (keys out) \/
  exists code, In code (keys items) /\ bucket_of_code names code = Some b.
Proof.
  induction items as [|[code cnt] items IH]; intros out b H; [now left|].
  rewrite bucketize_loop_step in H. apply IH in H.
  destruct H as [H | (code' & Hin & Hb)].
  - destruct (bucket_of_code names code) as [b'|] eqn:Eb; auto.
    unfold dict_add in H. apply In_keys_set in H. destruct H as [-> | H]; auto.
    right. exists code. split; [now left | exact Eb].
  - right. exists code'. split; [now right | exact Hb].
Qed.

Lemma bucketize_loop_nodup (items : dict F) names : forall out,
  NoDup (keys out) -> NoDup (keys (bucketize_loop items names out)).
Proof.
  induction items as [|[code cnt] items IH]; intros out H; [exact H|].
  rewrite bucketize_loop_step. apply IH.
  destruct (bucket_of_code names code); auto using dict_add_nodup.
Qed.

(** X6: [economy_bucketize] reports each bucket once, and only these
    buckets: [UKEY], [PA], [PG], [FA], [FG], or, for a code of the input whose
    stripped display name ends in " Rune", that name without " Rune" in
    upper case. *)
Theorem economy_bucketize_buckets (leaf_counts : dict F) code_to_name :
  NoDup (keys (economy_bucketize leaf_counts code_to_name)) /\
  forall b, In b (keys (economy_bucketize leaf_counts code_to_name)) ->
    In b ["UKEY"; "PA"; "PG"; "FA"; "FG"] \/
    exists code,
      In code (keys leaf_counts) /\
      endswith (display_name code_to_name code) " Rune" = true /\
      b = upper (str_replace (display_name code_to_name code) " Rune" "").
Proof.
  split.
  - apply bucketize_loop_nodup. constructor.
  - intros b H. apply bucketize_loop_keys in H.
    destruct H as [[] | (code & Hin & Hb)].
    unfold bucket_of_code in Hb.
    destruct (truthy (display_name code_to_name code)); [|discriminate].
    apply bucket_of_cases in Hb. destruct Hb as [Hb | [He ->]]; auto.
    right. exists code. auto.
Qed.

(** X7: codes that have no bucket (no name, a blank name, or a name no rule
    matches) never influence the result: dropping them from the input
    changes nothing. *)
Theorem economy_bucketize_ignores_unclassified (leaf_counts : dict F) code_to_name :
  economy_bucketize leaf_counts code_to_name
  = economy_bucketize
      (filter (fun kv => match bucket_of_code code_to_name (fst kv) with
                         | Some _ => true
                         | None => false
                         end) leaf_counts)
      code_to_name.
Proof.
  unfold economy_bucketize. generalize (@nil (string * F)).
  induction leaf_counts as [|[code cnt] items IH]; intros out; [reflexivity|].
  rewrite bucketize_loop_step. cbn [filter fst].
  destruct (bucket_of_code code_to_name code) eqn:Eb.
  - rewrite bucketize_loop_step, Eb. apply IH.
  - apply IH.
Qed.
End Buckets.

Section BucketValues.
Local Open Scope Q_scope.

Lemma get_or_zero_add (d : dict Q) k x k' :
  get_or_zero (dict_add d k x) k'
  = if (k =? k')%string then get_or_zero d k' + x else get_or_zero d k'.
Proof.
  unfold get_or_zero, dict_add. destruct (String.eqb k k') eqn:E.
  - apply String.eqb_eq in E. subst k'. now rewrite dict_get_set_same.
  - apply String.eqb_neq in E. now rewrite dict_get_set_other.
Qed.

Lemma bucketize_loop_value (items : dict Q) names b : forall out,
  get_or_zero (bucketize_loop items names out) b
  == get_or_zero out b
     + total_mass (filter (fun kv => in_bucket names b (fst kv)) items).
Proof.
  induction items as [|[code cnt] items IH]; intros out.
  - simpl. rewrite total_mass_nil. lra.
  - rewrite bucketize_loop_step, IH. cbn [filter fst]. unfold in_bucket at 2.
    destruct (bucket_of_code names code) as [b'|].
    + rewrite get_or_zero_add. destruct (String.eqb b' b).
      * rewrite total_mass_cons. lra.
      * lra.
    + lra.
Qed.

(** X8: in exact arithmetic, the count [economy_bucketize] reports for a
    bucket is the sum of the counts of the codes classified into it; a bucket
    no code falls into reads 0. *)
Theorem economy_bucketize_sums_bucket (leaf_counts : dict Q) code_to_name bucket :
  get_or_zero (economy_bucketize leaf_counts code_to_name) bucket
  == total_mass (filter (fun kv => in_bucket code_to_name bucket (fst kv)) leaf_counts).
Proof.
  unfold economy_bucketize. rewrite bucketize_loop_value.
  unfold get_or_zero at 1. simpl. change (inject_Z 0) with 0. lra.
Qed.
End BucketValues.

(** ** Rune names *)

Lemma prefix_space_rune c s : c <> " "%char -> String.prefix " Rune" (String c s) = false.
Proof.
  intros Hc. cbn [String.prefix].
  destruct (Ascii.ascii_dec " "%char c) as [E | _]; [congruence | reflexivity].
Qed.

Lemma replace_rune_suffix base :
  (forall c, In c (list_ascii_of_string base) -> c <> " "%char) ->
  str_replace (base ++ " Rune") " Rune" "" = base.
Proof.
  unfold str_replace. induction base as [|c base IH]; intros Hc.
  - reflexivity.
  - cbn [append replace_from]. rewrite prefix_space_rune by (apply Hc; now left).
    f_equal. apply IH. intros c' H. apply Hc. now right.
Qed.

Lemma length_append_string s t :
  String.length (s ++ t) = (String.length s + String.length t)%nat.
Proof. induction s; simpl; auto. Qed.

Lemma substring_append_suffix s t :
  substring (String.length s) (String.length t) (s ++ t) = t.
Proof.
  induction s as [|c s IH]; simpl; auto.
  induction t as [|c t IH]; simpl; auto. now rewrite IH.
Qed.

Lemma endswith_append s t : endswith (s ++ t) t = true.
Proof.
  unfold endswith. rewrite length_append_string.
  replace (String.length s + String.length t - String.length t)%nat
    with (String.length s) by lia.
  rewrite substring_append_suffix, String.eqb_refl.
  rewrite andb_true_r. apply Nat.leb_le. lia.
Qed.

Lemma lstrip_nonspace c s : is_space c = false -> lstrip (String c s) = String c s.
Proof. intros H. simpl. now rewrite H. Qed.

Lemma rstrip_append_rune s : rstrip (s ++ " Rune") = (s ++ " Rune")%string.
Proof.
  induction s as [|c s IH]; [reflexivity|].
  cbn [append rstrip]. rewrite IH.
  destruct (s ++ " Rune")%string eqn:E; [|reflexivity].
  destruct s; discriminate.
Qed.

(** X9: a code whose display name is one word followed by " Rune" is counted
    under that word in upper case ("El Rune" under EL): the classifier
    turns a single such item into a single bucket holding its count. *)
Theorem economy_bucketize_rune {F : Type} {PF : PyFloat F}
    code (cnt : F) code_to_name c base :
  dict_get code_to_name code = Some (String c base ++ " Rune")%string ->
  (forall c', In c' (list_ascii_of_string (String c base)) -> is_space c' = false) ->
  economy_bucketize [(code, cnt)] code_to_name
  = [(upper (String c base), fadd (of_int 0) cnt)].
Proof.
  intros Hname Hword.
  assert (Hdisp : display_name code_to_name code = (String c base ++ " Rune")%string).
  { unfold display_name, get_or_empty, strip. rewrite Hname.
    change (String c base ++ " Rune")%string with (String c (base ++ " Rune")).
    rewrite lstrip_nonspace by (apply Hword; now left).
    apply (rstrip_append_rune (String c base)). }
  unfold economy_bucketize. rewrite bucketize_loop_step.
  unfold bucket_of_code. rewrite Hdisp.
  change (truthy (String c base ++ " Rune")) with true. cbv iota.
  unfold bucket_of. rewrite endswith_append, replace_rune_suffix.
  - reflexivity.
  - intros c' Hin E. subst c'. apply Hword in Hin. discriminate Hin.
Qed.

Lemma economy_bucketize_rune_witness :
  economy_bucketize (F := float) [("r01", 0.25%float)] [("r01", "El Rune")]
  = [("EL", 0.25%float)].
Proof.
  exact (economy_bucketize_rune (F := float) "r01" 0.25%float [("r01", "El Rune")]
           "E"%char "l" eq_refl
           ltac:(intros c' [<- | [<- | []]]; reflexivity)).
Defined.

(** * Pricing (lines 217-218) and the driver (lines 221-290) *)

Section Priced.
Context {F : Type} {PF : PyFloat F}.

Lemma priced_acc (econ price : dict F) (acc : dict F) :
  NoDup (keys acc ++ keys econ) ->
  fold_left (fun a kv =>
               if dict_mem price (fst kv) then dict_set a (fst kv) (snd kv) else a)
            econ acc
  = (acc ++ filter (fun kv => dict_mem price (fst kv)) econ)%list.
Proof.
  revert acc. induction econ as [|[k v] econ IH]; intros acc Hnd; simpl.
  - now rewrite app_nil_r.
  - simpl in Hnd. destruct (dict_mem price k).
    + rewrite dict_set_fresh.
      * rewrite IH; [now rewrite <- app_assoc|].
        unfold keys in *. rewrite map_app. simpl. now rewrite <- app_assoc.
      * apply NoDup_remove_2 in Hnd. intros Hin. apply Hnd.
        apply in_or_app. now left.
    + apply IH. now apply NoDup_remove_1 in Hnd.
Qed.

(** On a dictionary the comprehension of line 269 is a filter. *)
Lemma priced_filter (econ price : dict F) :
  NoDup (keys econ) ->
  priced econ price = filter (fun kv => dict_mem price (fst kv)) econ.
Proof. intros H. unfold priced. now rewrite priced_acc. Qed.

Lemma priced_keys (econ price : dict F) k :
  In k (keys (priced econ price)) -> dict_mem price k = true /\ In k (keys econ).
Proof.
  unfold priced. assert (Hgen : forall acc,
    In k (keys (fold_left (fun a kv =>
                  if dict_mem price (fst kv) then dict_set a (fst kv) (snd kv) else a)
                econ acc)) ->
    In k (keys acc) \/ (dict_mem price k = true /\ In k (keys econ))).
  { induction econ as [|[k' v] econ IH]; intros acc H; simpl in *; auto.
    apply IH in H. destruct H as [H | [H1 H2]]; auto.
    destruct (dict_mem price k') eqn:E; auto.
    apply In_keys_set in H. destruct H as [-> | H]; auto. }
  intros H. apply Hgen in H. destruct H as [[] | H]. exact H.
Qed.
End Priced.

Section Value.
Local Open Scope Q_scope.

Lemma weighted_cons w k v (d : dict Q) :
  total_mass (weighted w ((k, v) :: d)) == v * w k + total_mass (weighted w d).
Proof. unfold weighted. cbn [map fst snd]. apply total_mass_cons. Qed.



(** On a dictionary, [rpk_from_drops] is the price-weighted mass. *)
Lemma rpk_weighted (d price : dict Q) :
  NoDup (keys d) ->
  rpk_from_drops d price = total_mass (weighted (get_or_zero price) d).
Proof.
  intros Hnd. unfold rpk_from_drops, total_mass, weighted, values, keys.
  rewrite !map_map. f_equal. apply map_ext_in. intros [k v] Hin. cbn [fst snd].
  unfold get_or_zero at 1. now rewrite (In_dict_get d k v Hnd Hin).
Qed.

Lemma weighted_filter_priced (d price : dict Q) :
  total_mass (weighted (get_or_zero price)
                (filter (fun kv => dict_mem price (fst kv)) d))
  == total_mass (weighted (get_or_zero price) d).
Proof.
  induction d as [|[k v] d IH]; [reflexivity|].
  cbn [filter fst]. unfold dict_mem at 1, get_or_zero at 2.
  destruct (dict_get price k) eqn:E.
  - rewrite !weighted_cons, IH. reflexivity.
  - rewrite weighted_cons, IH. unfold get_or_zero. rewrite E.
    cbn [of_int QF.qf]. change (inject_Z 0) with 0. lra.
Qed.


Lemma filter_keys_nodup {V : Type} (f : string * V -> bool) (d : dict V) :
  NoDup (keys d) -> NoDup (keys (filter f d)).
Proof.
  induction d as [|[k v] d IH]; simpl; intros H; [constructor|].
  inversion H as [|? ? Hni Hnd]; subst.
  destruct (f (k, v)); simpl; auto.
  constructor; auto. intros Hin. apply Hni.
  unfold keys in *. apply in_map_iff in Hin. destruct Hin as (kv & <- & Hkv).
  apply filter_In in Hkv. apply in_map. tauto.
Qed.



(** X11: pricing ignores what it cannot price: restricting a report to the
    buckets of the price table, as the driver does before writing it, leaves
    its value unchanged (exact arithmetic). *)
Theorem unpriced_buckets_are_worth_nothing (econ price : dict Q) :
  NoDup (keys econ) ->
  rpk_from_drops (priced econ price) price == rpk_from_drops econ price.
Proof.
  intros Hnd. rewrite (priced_filter _ _ Hnd).
  rewrite rpk_weighted by (now apply filter_keys_nodup).
  rewrite (rpk_weighted econ price Hnd). apply weighted_filter_priced.
Qed.
End Value.

Lemma unpriced_buckets_are_worth_nothing_witness :
  (rpk_from_drops (F := Q) (priced [("EL", 1 # 2); ("PG", 3 # 8)] [("EL", 2 # 1)])
                  [("EL", 2 # 1)]
   == rpk_from_drops [("EL", 1 # 2); ("PG", 3 # 8)] [("EL", 2 # 1)])%Q.
Proof.
  apply (unpriced_buckets_are_worth_nothing [("EL", 1 # 2); ("PG", 3 # 8)] [("EL", 2 # 1)]).
  repeat constructor; simpl; intuition discriminate.
Defined.

Section DriverFacts.
Context {F : Type} {PF : PyFloat F} {PL : PyFloatLt F}.



(** What the loop over the bosses has done when it stops. *)
Lemma bosses_loop_spec depth tcdict names (price : dict F) diff nplayers todo :
  forall files summary r files',
    bosses_loop depth tcdict names price diff nplayers todo files summary = (r, files') ->
    (forall f, In f files' ->
       In f files \/
       exists name tc leaf,
         In (name, tc) todo /\
         expected_counts_per_kill depth tc tcdict nplayers = Ok leaf /\
         drops f = priced (economy_bucketize leaf names) price) /\
    (forall s, r = Ok s ->
       map fst s = (map fst summary ++ map fst todo)%list /\
       incl summary s /\
       List.length files' = (List.length files + List.length todo)%nat /\
       forall name tc, In (name, tc) todo ->
         exists leaf,
           expected_counts_per_kill depth tc tcdict nplayers = Ok leaf /\
           In (name, rpk_from_drops (priced (economy_bucketize leaf names) price) price) s).
Proof.
  induction todo as [|[name tc] todo IH]; intros files summary r files' H.
  - simpl in H. injection H as <- <-. split; [auto|].
    intros s [= <-]. rewrite app_nil_r. repeat split; auto using incl_refl.
    intros ? ? [].
  - cbn [bosses_loop] in H.
    destruct (expected_counts_per_kill depth tc tcdict nplayers) as [leaf|e] eqn:E.
    + apply IH in H. destruct H as [Hf Hs]. split.
      * intros f Hin. destruct (Hf f Hin) as [Hin' | (n' & t' & l' & H1 & H2 & H3)].
        -- apply in_app_or in Hin'. destruct Hin' as [Hin' | [<- | []]]; auto.
           right. exists name, tc, leaf. repeat split; auto. now left.
        -- right. exists n', t', l'. repeat split; auto. now right.
      * intros s Hr. destruct (Hs s Hr) as (Hk & Hincl & Hlen & Hall).
        rewrite map_app in Hk. simpl in Hk. rewrite <- app_assoc in Hk.
        split; [exact Hk|]. split; [|split].
        -- intros x Hx. apply Hincl. apply in_or_app. now left.
        -- rewrite length_app in Hlen. simpl in *. lia.
        -- intros n' t' [[= <- <-] | Hin].
           ++ exists leaf. split; [exact E|]. apply Hincl.
              apply in_or_app. right. now left.
           ++ now apply Hall.
    + injection H as <- <-. split; [auto | discriminate].
Qed.

Lemma In_insert_desc (x y : string * F) l :
  In y (insert_desc x l) <-> y = x \/ In y l.
Proof.
  induction l as [|z l IH]; simpl.
  - intuition.
  - destruct (flt (snd x) (snd z)); simpl; rewrite ?IH; intuition.
Qed.



(** X13: whatever happens, every file the driver writes lists only buckets
    that the price table prices, each of them once. *)
Theorem written_files_hold_priced_buckets depth tcdict names (price : dict F)
    diff nplayers f :
  In f (snd (main_run depth tcdict names price diff nplayers)) ->
  NoDup (keys (drops f)) /\
  forall k, In k (keys (drops f)) -> dict_mem price k = true.
Proof.
  assert (Hpriced : forall leaf : dict F,
            NoDup (keys (priced (economy_bucketize leaf names) price)) /\
            forall k, In k (keys (priced (economy_bucketize leaf names) price)) ->
                      dict_mem price k = true).
  { intros leaf.
    assert (Hnd : NoDup (keys (economy_bucketize leaf names)))
      by (apply bucketize_loop_nodup; constructor).
    split.
    - rewrite (priced_filter _ _ Hnd). now apply filter_keys_nodup.
    - intros k Hk. now apply priced_keys in Hk. }
  unfold main_run.
  destruct (bosses_loop depth tcdict names price diff nplayers (bosses diff) [] [])
    as [r fs] eqn:E.
  apply bosses_loop_spec in E. destruct E as [Hf _].
  assert (Hfs : In f fs -> NoDup (keys (drops f)) /\
                           forall k, In k (keys (drops f)) -> dict_mem price k = true).
  { intros Hin. destruct (Hf f Hin) as [[] | (n & t & l & _ & _ & ->)]. apply Hpriced. }
  destruct r as [s|e]; [|exact Hfs].
  destruct (getitem (bosses diff) "council"); [|exact Hfs].
  destruct (expected_counts_per_kill depth a tcdict nplayers); [|exact Hfs].
  simpl. intros Hin. apply in_app_or in Hin.
  destruct Hin as [Hin | [<- | []]]; [auto | apply Hpriced].
Qed.
End DriverFacts.


Lemma written_files_hold_priced_buckets_witness :
  NoDup (keys [("EL", 0.25%float)]) /\
  forall k, In k (keys [("EL", 0.25%float)]) -> dict_mem [("EL", 2%float)] k = true.
Proof.
  apply (written_files_hold_priced_buckets (F := float) 3 hell_table hell_names
           [("EL", 2%float)] "H" 1
           {| file_name := "boss.diablo.drops.json"; boss := "diablo";
              difficulty := "H"; players := 1; drops := [("EL", 0.25%float)] |}).
  vm_compute. left. reflexivity.
Defined.

Section DriverValues.
Local Open Scope Q_scope.



Lemma insert_desc_sorted (x : string * Q) l :
  StronglySorted (fun a b => snd b <= snd a) l ->
  StronglySorted (fun a b => snd b <= snd a) (insert_desc x l).
Proof.
  induction 1 as [|z l Hs IH Hall]; simpl.
  - repeat constructor.
  - cbn [flt qf_lt]. destruct (Qle_bool (snd z) (snd x)) eqn:E; simpl.
    + apply Qle_bool_iff in E. constructor; [now constructor|].
      constructor; [exact E|]. rewrite Forall_forall in *.
      intros y Hy. specialize (Hall y Hy). lra.
    + assert (Hlt : snd x < snd z).
      { apply Qnot_le_lt. intros Hle. apply Qle_bool_iff in Hle. congruence. }
      constructor; [exact IH|]. rewrite Forall_forall in *.
      intros y Hy. apply In_insert_desc in Hy. destruct Hy as [-> | Hy]; auto. lra.
Qed.

Lemma sort_desc_sorted (l : list (string * Q)) :
  StronglySorted (fun a b => snd b <= snd a) (sort_desc l).
Proof.
  unfold sort_desc. induction l as [|x l IH]; simpl; [constructor|].
  now apply insert_desc_sorted.
Qed.

Lemma insert_desc_perm {F : Type} {PL : PyFloatLt F} (x : string * F) l :
  Permutation (insert_desc x l) (x :: l).
Proof.
  induction l as [|z l IH]; simpl; [reflexivity|].
  destruct (flt (snd x) (snd z)); [|reflexivity].
  rewrite IH. apply perm_swap.
Qed.

Lemma sort_desc_perm {F : Type} {PL : PyFloatLt F} (l : list (string * F)) :
  Permutation (sort_desc l) l.
Proof.
  unfold sort_desc. induction l as [|x l IH]; simpl; [reflexivity|].
  rewrite insert_desc_perm. now constructor.
Qed.

(** X15: on success the summary the driver prints names the eight bosses and
    [council5], each once, in non-increasing order of value (exact
    arithmetic). *)
Theorem summary_is_sorted_and_complete depth tcdict names (price : dict Q) diff nplayers
    summary files :
  main_run depth tcdict names price diff nplayers = (Ok summary, files) ->
  StronglySorted (fun a b => snd b <= snd a) summary /\
  Permutation (map fst summary)
    ["diablo"; "baal"; "mephisto"; "andariel"; "nihl"; "countess"; "summoner";
     "council"; "council5"]%string.
Proof.
  unfold main_run.
  destruct (bosses_loop depth tcdict names price diff nplayers (bosses diff) [] [])
    as [[s|e] fs] eqn:E; [|discriminate].
  apply bosses_loop_spec in E. destruct E as [_ Hs].
  destruct (Hs s eq_refl) as (Hk & _).
  destruct (getitem (bosses diff) "council"); [|discriminate].
  destruct (expected_counts_per_kill depth a tcdict nplayers); [|discriminate].
  intros [= <- _]. split.
  - apply sort_desc_sorted.
  - rewrite (Permutation_map fst (sort_desc_perm _)).
    rewrite map_app, Hk. reflexivity.
Qed.
End DriverValues.


Lemma summary_is_sorted_and_complete_witness :
  StronglySorted (fun a b => (snd b <= snd a)%Q)
    (match fst (main_run (F := Q) 3 hell_table hell_names [("EL", 2 # 1)] "H" 1) with
     | Ok s => s | Raise _ => [] end) /\
  Permutation
    (map fst (match fst (main_run (F := Q) 3 hell_table hell_names [("EL", 2 # 1)] "H" 1)
              with Ok s => s | Raise _ => [] end))
    ["diablo"; "baal"; "mephisto"; "andariel"; "nihl"; "countess"; "summoner";
     "council"; "council5"].
Proof.
  apply (summary_is_sorted_and_complete 3 hell_table hell_names [("EL", 2 # 1)] "H" 1 _
           (snd (main_run (F := Q) 3 hell_table hell_names [("EL", 2 # 1)] "H" 1))).
  vm_compute. reflexivity.
Defined.

(** ** The loaders (lines 30-46) *)

Lemma index_rows_lookup rows key_field : forall out t,
  index_rows rows key_field out = Ok t ->
  forall k, dict_get t k =
            match last_row rows key_field k with
            | Some r => Some r
            | None => dict_get out k
            end.
Proof.
  induction rows as [|row rows IH]; intros out t H k; simpl in *.
  - now inversion H.
  - unfold getitem in H. destruct (dict_get row key_field) as [k'|] eqn:E;
      simpl in H; [|discriminate].
    rewrite (IH _ _ H k). destruct (last_row rows key_field k); auto.
    destruct (String.eqb_spec k' k) as [->|Hne].
    + apply dict_get_set_same.
    + now apply dict_get_set_other.
Qed.

Lemma index_rows_nodup rows key_field : forall out t,
  index_rows rows key_field out = Ok t -> NoDup (keys out) -> NoDup (keys t).
Proof.
  induction rows as [|row rows IH]; intros out t H Hnd; simpl in *.
  - now inversion H; subst.
  - destruct (getitem row key_field) as [k'|]; simpl in H; [|discriminate].
    eapply IH; [exact H|]. now apply NoDup_keys_set.
Qed.

Lemma last_row_In rows key_field k row :
  last_row rows key_field k = Some row ->
  In row rows /\ dict_get row key_field = Some k.
Proof.
  induction rows as [|r rows IH]; simpl; [discriminate|].
  destruct (last_row rows key_field k) as [r'|].
  - intros [= ->]. destruct (IH eq_refl). auto.
  - destruct (dict_get r key_field) as [k'|] eqn:E; [|discriminate].
    destruct (String.eqb_spec k' k) as [->|]; [|discriminate].
    intros [= ->]. auto.
Qed.

(** X16: when every row has the key field, [load_tsv_dict] succeeds and a
    key maps to the last row that carries it, an earlier row with the same
    key is lost; the keys are exactly the key cells of the rows. *)
Theorem load_tsv_dict_last_row_wins rows key_field :
  (forall row, In row rows -> dict_mem row key_field = true) ->
  exists t, load_tsv_dict rows key_field = Ok t /\
            NoDup (keys t) /\
            forall k, dict_get t k = last_row rows key_field k.
Proof.
  intros Hall. unfold load_tsv_dict.
  assert (Hok : forall out, exists t, index_rows rows key_field out = Ok t).
  { induction rows as [|row rows IH]; intros out; simpl; [eauto|].
    assert (Hm := Hall row (or_introl eq_refl)).
    unfold dict_mem in Hm. unfold getitem.
    destruct (dict_get row key_field) as [k|]; [|discriminate]. simpl.
    apply IH. intros r Hr. apply Hall. now right. }
  destruct (Hok []) as [t Ht]. exists t. split; [exact Ht|]. split.
  - eapply index_rows_nodup; [exact Ht|constructor].
  - intros k. rewrite (index_rows_lookup _ _ _ _ Ht k).
    now destruct (last_row rows key_field k).
Qed.

(** X17: a row without the key field makes [load_tsv_dict] raise
    [KeyError] on that field, whatever the other rows hold. *)
Theorem load_tsv_dict_missing_field rows key_field row :
  In row rows -> dict_mem row key_field = false ->
  load_tsv_dict rows key_field = Raise (KeyError key_field).
Proof.
  intros Hin Hm. unfold load_tsv_dict. generalize (@nil (string * Row)).
  induction rows as [|r rows IH]; intros out; [destruct Hin|].
  simpl. unfold getitem, dict_mem in *.
  destruct (dict_get r key_field) as [k|] eqn:E; simpl.
  - destruct Hin as [-> | Hin]; [rewrite E in Hm; discriminate|]. now apply IH.
  - reflexivity.
Qed.

Lemma code_names_lookup rows : forall acc c n,
  dict_get (code_names rows acc) c = Some n ->
  dict_get acc c = Some n \/
  exists row, In row rows /\ dict_get row "code" = Some c /\ c <> "" /\
              n = title (get_or_empty row "name").
Proof.
  induction rows as [|row rows IH]; intros acc c n H; simpl in *; [auto|].
  destruct (dict_get row "code") as [code|] eqn:E.
  - destruct (truthy code) eqn:T.
    + apply IH in H. destruct H as [H | (r & Hr & H)]; [|right; exists r; auto].
      destruct (String.eqb_spec code c) as [->|Hne].
      * rewrite dict_get_set_same in H. injection H as <-.
        right. exists row. repeat split; auto.
        intros ->. discriminate.
      * rewrite dict_get_set_other in H by exact Hne. auto.
    + apply IH in H. destruct H as [H | (r & Hr & H)]; [auto|right; exists r; auto].
  - apply IH in H. destruct H as [H | (r & Hr & H)]; [auto|right; exists r; auto].
Qed.

(** X18: every entry of the code-to-name table comes from a row that is the
    last one with its name: the code is that row's non-empty code cell and
    the name is the row's name, title-cased.  A row whose name a later row
    repeats contributes nothing. *)
Theorem load_misc_code_to_name_provenance rows m c n :
  load_misc_code_to_name rows = Ok m ->
  dict_get m c = Some n ->
  c <> "" /\
  exists row name,
    last_row rows "name" name = Some row /\
    dict_get row "code" = Some c /\ n = title name.
Proof.
  unfold load_misc_code_to_name, load_tsv_dict.
  destruct (index_rows rows "name" []) as [misc|e] eqn:E; simpl; [|discriminate].
  intros [= <-] H.
  apply code_names_lookup in H. destruct H as [H | (row & Hin & Hc & Hne & ->)];
    [discriminate|].
  split; [exact Hne|].
  unfold values in Hin. apply in_map_iff in Hin. destruct Hin as ([name r] & Hr & Hin).
  simpl in Hr. subst r.
  apply In_dict_get in Hin; [|eapply index_rows_nodup; [exact E|constructor]].
  rewrite (index_rows_lookup _ _ _ _ E name) in Hin.
  destruct (last_row rows "name" name) as [r|] eqn:L; [|discriminate].
  injection Hin as ->.
  exists row, name. repeat split; auto.
  apply last_row_In in L. destruct L as [_ L].
  unfold get_or_empty. now rewrite L.
Qed.

Lemma load_tsv_dict_last_row_wins_witness :
  exists t, load_tsv_dict misc_rows "name" = Ok t /\
            NoDup (keys t) /\
            forall k, dict_get t k = last_row misc_rows "name" k.
Proof.
  apply (load_tsv_dict_last_row_wins misc_rows "name").
  intros row H. simpl in H.
  destruct H as [<-|[<-|[<-|[<-|[]]]]]; reflexivity.
Defined.

Lemma load_tsv_dict_missing_field_witness :
  load_tsv_dict misc_rows "Treasure Class" = Raise (KeyError "Treasure Class").
Proof.
  apply (load_tsv_dict_missing_field misc_rows "Treasure Class"
           [("name", "el rune"); ("code", "r01")]).
  - simpl. auto.
  - reflexivity.
Defined.

Lemma load_misc_code_to_name_provenance_witness :
  "r02" <> "" /\
  exists row name,
    last_row misc_rows "name" name = Some row /\
    dict_get row "code" = Some "r02" /\ "El Rune" = title name.
Proof.
  apply (load_misc_code_to_name_provenance misc_rows
           [("r02", "El Rune"); ("pk1", "Key Of Terror")] "r02" "El Rune").
  - vm_compute. reflexivity.
  - reflexivity.
Defined.

(** ** The no-drop weight at one and two players *)

Section NoDropLow.
Local Open Scope Q_scope.


End NoDropLow.


(** ** How the weights are paired with the outcomes (lines 62-65) *)

Lemma listed_loop_numbering row cells : forall acc listed,
  listed_loop row cells acc = Ok listed ->
  map fst listed =
    (map fst acc ++
     map snd (filter (fun kv => startswith (fst kv) "Item" && truthy (snd kv))%bool
                     cells))%list /\
  ((forall i o w, nth_error acc i = Some (o, w) ->
      exists cell, dict_get row ("Prob" ++ str_of_nat (S i)) = Some cell /\
                   py_int cell = Ok w) ->
   forall i o w, nth_error listed i = Some (o, w) ->
      exists cell, dict_get row ("Prob" ++ str_of_nat (S i)) = Some cell /\
                   py_int cell = Ok w).
Proof.
  induction cells as [|[k v] cells IH]; intros acc listed H; cbn [listed_loop] in H.
  - injection H as <-. simpl. rewrite app_nil_r. auto.
  - cbn [filter fst snd].
    destruct (startswith k "Item" && truthy v)%bool.
    + unfold getitem in H.
      destruct (dict_get row ("Prob" ++ str_of_nat (S (List.length acc)))) as [cell|] eqn:E;
        cbn [bind] in H; [|discriminate].
      destruct (py_int cell) as [n|] eqn:En; cbn [bind] in H; [|discriminate].
      destruct (IH _ _ H) as [Hk Hw]. split.
      * rewrite Hk, map_app. simpl. now rewrite <- app_assoc.
      * intros Hacc. apply Hw. intros i o w Hi.
        destruct (Nat.lt_ge_cases i (List.length acc)) as [Hlt|Hge].
        -- rewrite nth_error_app1 in Hi by exact Hlt. eauto.
        -- rewrite nth_error_app2 in Hi by exact Hge.
           destruct (i - List.length acc)%nat as [|j] eqn:Ej.
           ++ simpl in Hi. injection Hi as <- <-.
              assert (i = List.length acc) by lia. subst i. eauto.
           ++ simpl in Hi. destruct j; discriminate.
    + apply IH. exact H.
Qed.

(** X20: the outcomes of a row are its non-empty [Item] cells in column
    order, and the weight of the i-th of them is the integer in column
    [Prob<i>]: the weights are numbered by position among the non-empty
    cells, not by the number in the [Item] column's name. *)
Theorem listed_weights_are_numbered_by_position row listed :
  listed_outcomes row = Ok listed ->
  map fst listed =
    map snd (filter (fun kv => startswith (fst kv) "Item" && truthy (snd kv))%bool row) /\
  forall i o w, nth_error listed i = Some (o, w) ->
    exists cell, dict_get row ("Prob" ++ str_of_nat (S i)) = Some cell /\
                 py_int cell = Ok w.
Proof.
  intros H. destruct (listed_loop_numbering row row [] listed H) as [Hk Hw].
  split; [exact Hk|]. apply Hw. intros [|i] o w Hi; discriminate.
Qed.

Lemma listed_weights_are_numbered_by_position_witness :
  map fst [("r02", 5)] =
    map snd (filter (fun kv => startswith (fst kv) "Item" && truthy (snd kv))%bool
               [("Item1", ""); ("Prob1", "5"); ("Item2", "r02"); ("Prob2", "7")]) /\
  forall i o w, nth_error [("r02", 5)] i = Some (o, w) ->
    exists cell,
      dict_get [("Item1", ""); ("Prob1", "5"); ("Item2", "r02"); ("Prob2", "7")]
               ("Prob" ++ str_of_nat (S i)) = Some cell /\
      py_int cell = Ok w.
Proof.
  apply (listed_weights_are_numbered_by_position
           [("Item1", ""); ("Prob1", "5"); ("Item2", "r02"); ("Prob2", "7")]
           [("r02", 5)]).
  reflexivity.
Defined.
